(** * Verification of the m4d-coso agent runtime (m4dtimes SDK)

    Shallow embedding of the agent SDK (context manager, tool registry,
    turn cycle, agent loop, event buses, session recorder) and of the
    application's reminder producer and send_user_message tool.

    Conventions:
    - Go [int64] and [int] values are [Z]; Go strings are [string].
    - Database tables are lists of rows in physical order; SQL statements
      are functions on those lists.
    - External collaborators (model provider, messenger, database
      failures, random sources) are oracles passed as arguments.
    - Every effect that is observable outside the process is recorded in
      an explicit trace of [Effect]s, in program order. *)

From Stdlib Require Import ZArith Lia Sorted Permutation Ascii.
From stdpp Require Import base list gmap strings pretty.

Open Scope Z_scope.
Open Scope string_scope.
Open Scope list_scope.

(* ================================================================== *)
(** ** Message IR (package llm) *)

Record Usage := mkUsage { InputTokens : Z; OutputTokens : Z }.

Record ToolCall := mkToolCall {
  tc_ID : string;
  tc_Name : string;
  tc_Arguments : string  (* json.RawMessage *)
}.

Record ToolResult := mkToolResult {
  ToolCallID : string;
  tr_Content : string;
  IsError : bool
}.

Record ContentBlock := mkBlock {
  cb_Type : string;
  cb_Text : string;
  cb_ToolCall : option ToolCall;
  cb_ToolResult : option ToolResult
}.

Record Message := mkMessage {
  Role : string;
  Content : list ContentBlock;
  msg_Usage : option Usage
}.

Record Response := mkResponse {
  resp_Type : string;
  resp_Text : string;
  resp_ToolCalls : list ToolCall;
  resp_Usage : Usage
}.

(* ================================================================== *)
(** ** Tool registry (sdk/agent/registry.go, types.go) *)

(** The tool context handed to every handler.  [Extra] is an opaque
    application value; the injector and bus handles are the agent and
    its bus, which the handler signature does not expose here. *)
Record ToolContext := mkToolContext {
  tctx_UserID : Z;
  tctx_ChatID : Z;
  tctx_Timestamp : Z;
  tctx_Extra : string
}.

(** [ToolHandler func(ctx ToolContext, args json.RawMessage) (string, error)]:
    the Go pair (result, err) with [err = nil] as [None]. *)
Definition ToolHandler := ToolContext -> string -> string * option string.

Record registeredTool := mkRegisteredTool {
  rt_name : string;
  rt_description : string;
  rt_handler : option ToolHandler   (* a nil handler is possible *)
}.

(** [ToolRegistry{tools map[string]registeredTool}]; a nil registry pointer
    is [None]. *)
Definition ToolRegistry := option (gmap string registeredTool).

Definition Register (r : ToolRegistry) (name description : string)
    (handler : ToolHandler) : ToolRegistry :=
  match r with
  | None => None
  | Some tools =>
      Some (<[name := mkRegisteredTool name description (Some handler)]> tools)
  end.

(** [ToolRegistry.Execute]: every path returns a [ToolResult] value with an
    empty [ToolCallID]. *)
Definition Execute (r : ToolRegistry) (name args : string) (ctx : ToolContext)
    : ToolResult :=
  match r with
  | None => mkToolResult "" "tool registry is nil" true
  | Some tools =>
      match tools !! name with
      | None => mkToolResult "" (String.append "unknown tool: " name) true
      | Some tool =>
          match rt_handler tool with
          | None => mkToolResult "" (String.append "tool has no handler: " name) true
          | Some h =>
              match h ctx args with
              | (_, Some err) => mkToolResult "" err true
              | (result, None) => mkToolResult "" result false
              end
          end
      end
  end.

(* ================================================================== *)
(** ** Message constructors (agent.go) *)

Definition textBlock (t : string) : ContentBlock := mkBlock "text" t None None.

Definition userText (t : string) : Message := mkMessage "user" [textBlock t] None.

Definition assistantMessage (text : string) : Message :=
  mkMessage "assistant" [textBlock text] None.

Definition assistantToolUseMessage (toolCalls : list ToolCall) : Message :=
  mkMessage "assistant"
    (map (fun tc => mkBlock "tool_use" "" (Some tc) None) toolCalls) None.

Definition toolResultBlock (result : ToolResult) : ContentBlock :=
  mkBlock "tool_result" "" None (Some result).

Definition toolResultMessage (results : list ContentBlock) : Message :=
  mkMessage "user" results None.

Definition with_usage (m : Message) (u : Usage) : Message :=
  mkMessage (Role m) (Content m) (Some u).

(* ================================================================== *)
(** ** Externally visible effects *)

Record AgentEvent := mkAgentEvent {
  ev_Kind : string;      (* "user_message" | "relay" | "heartbeat" | "reminder" *)
  ev_TargetID : Z;
  ev_ChatID : Z;
  ev_Content : string;
  ev_Source : string;
  ev_EventID : string
}.

Inductive Effect :=
  | EffSend (chatID : Z) (text : string)         (* Messenger.Send *)
  | EffLog (where_ : string)                     (* Logger.Error / log.Printf *)
  | EffSleep30                                   (* time.After(30 * time.Second) fired *)
  | EffMarkProcessed (eventID : string)          (* PersistentBus.MarkProcessed *)
  | EffCommit (offset : Z)                       (* *offsetPtr = update.UpdateID + 1 *)
  | EffInject (userID : Z) (msg : Message)       (* ContextInjector.Inject *)
  | EffPublish (ev : AgentEvent).                (* EventBus.Publish *)

(** Whether the provider answers of a turn were enough for it to leave its
    loop ([Finished]), or the turn is still running after the answers
    given ([Running]). *)
Inductive TurnStatus := Finished | Running.

(* ================================================================== *)
(** ** Turn cycle: [Agent.runLLMTurn] (agent.go, 364-446)

    The provider is an oracle: [answers] lists its successive answers to
    the [Chat] calls of this turn ([None] is a returned error).  The
    context manager's message list is [ctx]; [Append] is [ctx ++ [m]]. *)

Definition sorryText : string := "Sorry, something went wrong.".

(** The dispatch loop of the [tool_use] branch (agent.go, 422-433). *)
Definition dispatchOne (reg : ToolRegistry) (toolCtx : ToolContext)
    (toolCall : ToolCall) : ContentBlock :=
  let result := Execute reg (tc_Name toolCall) (tc_Arguments toolCall) toolCtx in
  let result :=
    if String.eqb (ToolCallID result) ""
    then mkToolResult (tc_ID toolCall) (tr_Content result) (IsError result)
    else result in
  toolResultBlock result.

Definition dispatchAll (reg : ToolRegistry) (toolCtx : ToolContext)
    (calls : list ToolCall) : list ContentBlock :=
  map (dispatchOne reg toolCtx) calls.

Fixpoint runLLMTurn (reg : ToolRegistry) (toolCtx : ToolContext) (chatID : Z)
    (ctx : list Message) (answers : list (option Response))
    : list Message * list Effect * TurnStatus :=
  match answers with
  | [] => (ctx, [], Running)
  | None :: _ =>
      (ctx, [EffLog "llm_chat"; EffSend chatID sorryText], Finished)
  | Some resp :: rest =>
      if String.eqb (resp_Type resp) "text" then
        (ctx ++ [with_usage (assistantMessage (resp_Text resp)) (resp_Usage resp)],
         [EffSend chatID (resp_Text resp)], Finished)
      else if String.eqb (resp_Type resp) "tool_use" then
        let toolMsg := with_usage (assistantToolUseMessage (resp_ToolCalls resp))
                                  (resp_Usage resp) in
        let results := dispatchAll reg toolCtx (resp_ToolCalls resp) in
        runLLMTurn reg toolCtx chatID
          (ctx ++ [toolMsg; toolResultMessage results]) rest
      else
        (ctx ++ [assistantMessage (resp_Text resp)],
         [EffSend chatID (resp_Text resp)], Finished)
  end.

(* ================================================================== *)
(** ** Context manager (unnamed/part_001: ContextManager)

    Go slices alias their backing arrays, so the manager is modelled over
    an explicit heap of arrays: a slice is a (backing array, offset,
    length) triple, [make] allocates a fresh array and [copy] copies
    elements between arrays. *)

Abbreviation Heap A := (gmap positive (list A)).

Section GoSlices.
Context {A : Type}.

Record Slice := mkSlice { sl_arr : positive; sl_off : nat; sl_len : nat }.

(** The elements a slice denotes. *)
Definition read (h : Heap A) (s : Slice) : list A :=
  match h !! sl_arr s with
  | Some arr => take (sl_len s) (drop (sl_off s) arr)
  | None => []
  end.

(** A slice lies inside its backing array. *)
Definition slice_ok (h : Heap A) (s : Slice) : Prop :=
  match h !! sl_arr s with
  | Some arr => (sl_off s + sl_len s <= length arr)%nat
  | None => False
  end.

(** [make([]T, n)] followed by [copy(out, src)]: [copy] moves
    [min(len(out), len(src))] elements and [make] zero-fills the rest,
    here with the first element of the source as filler for the
    (unreached) tail. *)
Definition make_copy (h : Heap A) (n : nat) (src : list A) (zero : A)
    : Heap A * Slice :=
  let a := fresh (dom h) in
  let contents := take n src ++ replicate (n - length src) zero in
  (<[a := contents]> h, mkSlice a 0 n).

(** [s[i] = x]; out of range panics ([None]). *)
Definition write (h : Heap A) (s : Slice) (i : nat) (x : A) : option (Heap A) :=
  if decide (i < sl_len s)%nat then
    match h !! sl_arr s with
    | Some arr => Some (<[sl_arr s := <[(sl_off s + i)%nat := x]> arr]> h)
    | None => None
    end
  else None.

(** [c.Messages[start:]] *)
Definition reslice_from (s : Slice) (start : nat) : Slice :=
  mkSlice (sl_arr s) (sl_off s + start) (sl_len s - start).

(** [ContextManager.Snapshot(n)] (part_001, 56-66), with [messages] the
    manager's [Messages] slice and [zero] the zero value of the element
    type. *)
Definition Snapshot (h : Heap A) (messages : Slice) (n : Z) (zero : A)
    : Heap A * Slice :=
  if Z.leb n 0 || Z.leb (Z.of_nat (sl_len messages)) n then
    make_copy h (sl_len messages) (read h messages) zero
  else
    let start := (sl_len messages - Z.to_nat n)%nat in
    make_copy h (Z.to_nat n) (read h (reslice_from messages start)) zero.

(** A sequence of element writes [out[i] = x] through one slice; a panic
    stops the sequence. *)
Fixpoint write_all (h : Heap A) (s : Slice) (ws : list (nat * A)) : option (Heap A) :=
  match ws with
  | [] => Some h
  | (i, x) :: ws' =>
      match write h s i x with
      | Some h' => write_all h' s ws'
      | None => None
      end
  end.

End GoSlices.

(* ================================================================== *)
(** ** Go string helpers (package strings), on ASCII text *)

Definition isSpace (c : Ascii.ascii) : bool :=
  match Ascii.nat_of_ascii c with
  | 9 | 10 | 11 | 12 | 13 | 32 => true
  | _ => false
  end%nat.

Fixpoint dropSpaces (l : list Ascii.ascii) : list Ascii.ascii :=
  match l with
  | c :: l' => if isSpace c then dropSpaces l' else l
  | [] => []
  end.

(** [strings.TrimSpace] *)
Definition TrimSpace (s : string) : string :=
  String.string_of_list_ascii
    (rev (dropSpaces (rev (dropSpaces (String.list_ascii_of_string s))))).

(** [strings.HasPrefix(s, prefix)] *)
Definition HasPrefix (s prefix : string) : bool := String.prefix prefix s.

(** [strings.TrimPrefix(s, prefix)] *)
Definition TrimPrefix (s prefix : string) : string :=
  if HasPrefix s prefix
  then String.substring (String.length prefix) (String.length s - String.length prefix) s
  else s.

(** [strings.ToLower], ASCII letters. *)
Definition lowerAscii (c : Ascii.ascii) : Ascii.ascii :=
  let n := Ascii.nat_of_ascii c in
  if (65 <=? n)%nat && (n <=? 90)%nat then Ascii.ascii_of_nat (n + 32) else c.

Definition ToLower (s : string) : string :=
  String.string_of_list_ascii (map lowerAscii (String.list_ascii_of_string s)).

(* ================================================================== *)
(** ** Agent loop (sdk/agent/agent.go) *)

(** [Update] (types.go) *)
Record Update := mkUpdate {
  UpdateID : Z;
  u_ChatID : Z;
  u_UserID : Z;
  u_Text : string
}.

(** The agent's mutable state: the per-user contexts (their message
    lists) and [consecutiveEventCount]; a missing Go map entry reads
    as 0. *)
Record Agent := mkAgent {
  contexts : gmap Z (list Message);
  consecutiveEventCount : gmap Z Z
}.

Definition countOf (a : Agent) (u : Z) : Z :=
  default 0 (consecutiveEventCount a !! u).

Definition setCount (a : Agent) (u c : Z) : Agent :=
  mkAgent (contexts a) (<[u := c]> (consecutiveEventCount a)).

(** [contextFor(u).Append(m)]; a fresh context starts empty. *)
Definition appendTo (a : Agent) (u : Z) (m : Message) : Agent :=
  mkAgent (<[u := default [] (contexts a !! u) ++ [m]]> (contexts a))
          (consecutiveEventCount a).

Definition setContext (a : Agent) (u : Z) (c : list Message) : Agent :=
  mkAgent (<[u := c]> (contexts a)) (consecutiveEventCount a).

(** [Options] fields used by the handlers.  Hooks return Go's
    (string, error) pair; [persistentBus] says whether [EventBus] is a
    [*PersistentBus]. *)
Record Options := mkOptions {
  Registry : ToolRegistry;
  HandleStart : option (Z -> Z -> string -> string * option string);
  Authorize : option (Z -> Z -> string * option string);
  BuildExtra : option (Z -> Z -> string * option string);
  persistentBus : bool
}.

(** [BuildExtra] call: an error is logged and [extra] becomes nil. *)
Definition buildExtra (o : Options) (userID chatID : Z) : string * list Effect :=
  match BuildExtra o with
  | None => ("", [])
  | Some f =>
      match f userID chatID with
      | (_, Some _) => ("", [EffLog "build_extra"])
      | (x, None) => (x, [])
      end
  end.

(** Run the turn for [userID] on its context; [now] is [time.Now().Unix()]. *)
Definition turnFor (o : Options) (a : Agent) (userID chatID now : Z)
    (answers : list (option Response)) : Agent * list Effect * TurnStatus :=
  let '(extra, tr0) := buildExtra o userID chatID in
  let toolCtx := mkToolContext userID chatID now extra in
  let '(c, tr1, st) :=
    runLLMTurn (Registry o) toolCtx chatID (default [] (contexts a !! userID)) answers in
  (setContext a userID c, tr0 ++ tr1, st).

(** [*offsetPtr = update.UpdateID + 1] when [offsetPtr] is non-nil. *)
Definition commit (offsetPtr : bool) (u : Update) : list Effect :=
  if offsetPtr then [EffCommit (UpdateID u + 1)] else [].

(** [Agent.handleTelegramUpdate] (agent.go, 215-294).  [offsetPtr] says
    whether the caller passed a non-nil offset pointer.  When the turn is
    still [Running] after the answers given, the handler has not returned
    yet and nothing after the turn has happened. *)
Definition handleTelegramUpdate (o : Options) (a : Agent) (u : Update) (now : Z)
    (answers : list (option Response)) (offsetPtr : bool)
    : Agent * list Effect * TurnStatus :=
  let a := setCount a (u_UserID u) 0 in
  let early (tr : list Effect) := (a, tr ++ commit offsetPtr u, Finished) in
  let startReply :=
    if HasPrefix (u_Text u) "/start" then
      match HandleStart o with
      | Some hs =>
          match hs (u_UserID u) (u_ChatID u) (TrimSpace (TrimPrefix (u_Text u) "/start")) with
          | (_, Some _) => Some [EffLog "handle_start"; EffSend (u_ChatID u) sorryText]
          | (reply, None) =>
              if String.eqb reply "" then None else Some [EffSend (u_ChatID u) reply]
          end
      | None => None
      end
    else None in
  match startReply with
  | Some tr => early tr
  | None =>
      let authReply :=
        match Authorize o with
        | Some auth =>
            match auth (u_UserID u) (u_ChatID u) with
            | (_, Some _) => Some [EffLog "authorize"; EffSend (u_ChatID u) sorryText]
            | (msg, None) =>
                if String.eqb msg "" then None else Some [EffSend (u_ChatID u) msg]
            end
        | None => None
        end in
      match authReply with
      | Some tr => early tr
      | None =>
          let a := appendTo a (u_UserID u) (userText (u_Text u)) in
          let '(a, tr, st) := turnFor o a (u_UserID u) (u_ChatID u) now answers in
          match st with
          | Finished => (a, tr ++ commit offsetPtr u, Finished)
          | Running => (a, tr, Running)
          end
      end
  end.

(** The user-message text [handleEvent] synthesizes from an event. *)
Definition eventContent (ev : AgentEvent) : string :=
  if String.eqb (ev_Kind ev) "relay"
  then String.append "[" (String.append (ev_Source ev) (String.append "]: " (ev_Content ev)))
  else ev_Content ev.

(** [Agent.handleEvent] (agent.go, 298-360).  [cancelled] says whether
    [ctx.Done()] fires during the 30 s throttle sleep.  A [Running] status
    means the turn is still running after the answers given. *)
Definition handleEvent (o : Options) (a : Agent) (ev : AgentEvent) (now : Z)
    (answers : list (option Response)) (cancelled : bool)
    : Agent * list Effect * TurnStatus :=
  let target := ev_TargetID ev in
  let a := setCount a target (countOf a target + 1) in
  let throttle :=
    if Z.ltb 10 (countOf a target)
    then if cancelled then None else Some [EffLog "handle_event"; EffSleep30]
    else Some [] in
  match throttle with
  | None => (a, [EffLog "handle_event"], Finished)
  | Some tr0 =>
      let a := appendTo a target (userText (eventContent ev)) in
      let '(a, tr, st) := turnFor o a target (ev_ChatID ev) now answers in
      match st with
      | Running => (a, tr0 ++ tr, Running)
      | Finished =>
          let mark :=
            if persistentBus o && negb (String.eqb (ev_EventID ev) "")
            then [EffMarkProcessed (ev_EventID ev)] else [] in
          (a, tr0 ++ tr ++ mark, Finished)
      end
  end.

(** [Agent.runTelegramOnly] (agent.go, 133-158): one polled batch, handled
    in order with [&offset]; [answersFor] gives the provider's answers for
    each update's turn. *)
Fixpoint runTelegramOnlyBatch (o : Options) (a : Agent) (offset now : Z)
    (answersFor : Update -> list (option Response)) (updates : list Update)
    : Agent * list Effect * Z * TurnStatus :=
  match updates with
  | [] => (a, [], offset, Finished)
  | u :: rest =>
      match handleTelegramUpdate o a u now (answersFor u) true with
      | (a', tr, Running) => (a', tr, offset, Running)
      | (a', tr, Finished) =>
          let '(a'', tr', off', st) :=
            runTelegramOnlyBatch o a' (UpdateID u + 1) now answersFor rest in
          (a'', tr ++ tr', off', st)
      end
  end.

(** [Agent.runUnified] (agent.go, 161-211): the Telegram poller goroutine
    and the dispatcher loop as one transition system.  [polls] lists the
    offsets passed to [Messenger.Poll] (Telegram forgets every update below
    the offset of a poll); [pending] is the rest of the batch the poller's
    [for] loop is forwarding; [chan] is [telegramUpdateCh] (capacity 64);
    [dispatched] lists the ids of the updates whose handling returned. *)
Record Unified := mkUnified {
  un_offset : Z;
  un_polls : list Z;
  un_pending : list Update;
  un_chan : list Update;
  un_agent : Agent;
  un_trace : list Effect;
  un_dispatched : list Z
}.

Inductive unified_step (o : Options) : Unified -> Unified -> Prop :=
  | US_Poll s batch :
      un_pending s = [] ->
      unified_step o s
        (mkUnified (un_offset s) (un_polls s ++ [un_offset s]) batch
                   (un_chan s) (un_agent s) (un_trace s) (un_dispatched s))
  | US_Forward s u rest :
      un_pending s = u :: rest ->
      (length (un_chan s) < 64)%nat ->
      unified_step o s
        (mkUnified (UpdateID u + 1) (un_polls s) rest (un_chan s ++ [u])
                   (un_agent s) (un_trace s) (un_dispatched s))
  | US_Dispatch s u rest now answers a' tr :
      un_chan s = u :: rest ->
      handleTelegramUpdate o (un_agent s) u now answers false = (a', tr, Finished) ->
      unified_step o s
        (mkUnified (un_offset s) (un_polls s) (un_pending s) rest a'
                   (un_trace s ++ tr) (un_dispatched s ++ [UpdateID u])).

Definition unified_init (a : Agent) : Unified := mkUnified 0 [] [] [] a [] [].

(* ================================================================== *)
(** ** Event buses (unnamed/part_000) *)

(** [InMemoryBus]: the buffered channel (capacity 256) as the queue of
    events not yet received.  [Publish] never blocks: on a full buffer
    the event is dropped. *)
Definition busCapacity : nat := 256.

Definition memPublish (ch : list AgentEvent) (ev : AgentEvent) : list AgentEvent :=
  if decide (length ch < busCapacity)%nat then ch ++ [ev] else ch.

(** A row of [agent_events].  [id] is the BIGSERIAL key; [created_at]
    defaults to [NOW()] at insertion; [processed_at] is nullable. *)
Record EventRow := mkEventRow {
  row_id : Z;
  r_event_id : string;
  r_target_user_id : Z;
  r_chat_id : Z;
  r_kind : string;
  r_content : string;
  r_source : string;
  r_created_at : Z;
  r_processed_at : option Z
}.

(** The table in physical order, and the next BIGSERIAL value. *)
Record EventStore := mkEventStore {
  rows : list EventRow;
  next_id : Z
}.

Record PersistentBus := mkPersistentBus {
  store : EventStore;
  mem : list AgentEvent
}.

(** [INSERT ... ON CONFLICT (event_id) DO NOTHING] at time [now]. *)
Definition insertEvent (s : EventStore) (ev : AgentEvent) (now : Z) : EventStore :=
  if existsb (fun r => String.eqb (r_event_id r) (ev_EventID ev)) (rows s)
  then s
  else mkEventStore
         (rows s ++ [mkEventRow (next_id s) (ev_EventID ev) (ev_TargetID ev)
                       (ev_ChatID ev) (ev_Kind ev) (ev_Content ev) (ev_Source ev)
                       now None])
         (next_id s + 1).

(** [PersistentBus.Publish] (84-96).  [persistOk] is whether the INSERT
    statement succeeded; on an error the store is unchanged and the error
    is logged.  The event is forwarded to the in-memory bus either way. *)
Definition busPublish (b : PersistentBus) (ev : AgentEvent) (now : Z) (persistOk : bool)
    : PersistentBus * list Effect :=
  let '(s, tr) :=
    if persistOk then (insertEvent (store b) ev now, [])
    else (store b, [EffLog "agent/bus: persist event"]) in
  (mkPersistentBus s (memPublish (mem b) ev), tr).

(** [UPDATE agent_events SET processed_at = NOW() WHERE event_id = $1]. *)
Definition markRow (eventID : string) (now : Z) (r : EventRow) : EventRow :=
  if String.eqb (r_event_id r) eventID
  then mkEventRow (row_id r) (r_event_id r) (r_target_user_id r) (r_chat_id r)
         (r_kind r) (r_content r) (r_source r) (r_created_at r) (Some now)
  else r.

(** [PersistentBus.MarkProcessed] (132-138). *)
Definition MarkProcessed (b : PersistentBus) (eventID : string) (now : Z) : PersistentBus :=
  mkPersistentBus (mkEventStore (map (markRow eventID now) (rows (store b)))
                                (next_id (store b)))
                  (mem b).

(** [ORDER BY created_at]: a stable insertion sort on [created_at]. *)
Fixpoint insertByCreated (r : EventRow) (l : list EventRow) : list EventRow :=
  match l with
  | [] => [r]
  | r' :: l' =>
      if Z.leb (r_created_at r') (r_created_at r)
      then r' :: insertByCreated r l'
      else r :: l
  end.

Fixpoint sortByCreated (l : list EventRow) : list EventRow :=
  match l with
  | [] => []
  | r :: l' => insertByCreated r (sortByCreated l')
  end.

Definition unprocessed (r : EventRow) : bool :=
  match r_processed_at r with None => true | Some _ => false end.

(** [rows.Scan] into an [AgentEvent] ([COALESCE(source, '')] is the
    stored string). *)
Definition rowEvent (r : EventRow) : AgentEvent :=
  mkAgentEvent (r_kind r) (r_target_user_id r) (r_chat_id r) (r_content r)
               (r_source r) (r_event_id r).

(** The SELECT of [ReplayUnprocessed]. *)
Definition selectUnprocessed (s : EventStore) : list EventRow :=
  sortByCreated (List.filter unprocessed (rows s)).

(** [PersistentBus.ReplayUnprocessed] (101-128).  [queryOk] is whether the
    query succeeded; the events are handed to the in-memory bus's
    [Publish] (returned in call order), never to the persisting
    [Publish]. *)
Definition ReplayUnprocessed (b : PersistentBus) (queryOk : bool)
    : PersistentBus * list AgentEvent * option string :=
  if queryOk then
    let evs := map rowEvent (selectUnprocessed (store b)) in
    (mkPersistentBus (store b) (foldl memPublish (mem b) evs), evs, None)
  else (b, [], Some "query").

(** Operations on a persistent bus, for runs after a [MarkProcessed]. *)
Inductive BusOp :=
  | OpPublish (ev : AgentEvent) (now : Z) (persistOk : bool)
  | OpMark (eventID : string) (now : Z)
  | OpReplay (queryOk : bool).

(** Run a sequence of operations; collect what each replay re-delivered. *)
Fixpoint busRun (b : PersistentBus) (ops : list BusOp)
    : PersistentBus * list AgentEvent :=
  match ops with
  | [] => (b, [])
  | OpPublish ev now ok :: ops' => busRun (busPublish b ev now ok).1 ops'
  | OpMark eid now :: ops' => busRun (MarkProcessed b eid now) ops'
  | OpReplay ok :: ops' =>
      let '(b', evs, _) := ReplayUnprocessed b ok in
      let '(b'', evs') := busRun b' ops' in (b'', evs ++ evs')
  end.

(** Number of rows of the store with a given [event_id]. *)
Definition countRows (s : EventStore) (eid : string) : nat :=
  length (List.filter (fun r => String.eqb (r_event_id r) eid) (rows s)).

(* ================================================================== *)
(** ** Reminder producer (atlas.hcl, 10-93: the bus version of
       [fireReminders]) *)

(** A row of [reminders] (the columns the producer reads or writes). *)
Record ReminderRow := mkReminderRow {
  rem_id : Z;
  fire_at : Z;
  rem_chat_id : Z;
  rem_message : string;
  rem_fired_at : option Z
}.

Definition isDue (now : Z) (r : ReminderRow) : bool :=
  Z.leb (fire_at r) now &&
  match rem_fired_at r with None => true | Some _ => false end.

(** [ORDER BY fire_at]: a stable insertion sort. *)
Fixpoint insertByFireAt (r : ReminderRow) (l : list ReminderRow) : list ReminderRow :=
  match l with
  | [] => [r]
  | r' :: l' =>
      if Z.leb (fire_at r') (fire_at r) then r' :: insertByFireAt r l' else r :: l
  end.

Fixpoint sortByFireAt (l : list ReminderRow) : list ReminderRow :=
  match l with
  | [] => []
  | r :: l' => insertByFireAt r (sortByFireAt l')
  end.

(** [SELECT id, chat_id, message FROM reminders WHERE fire_at <= now() AND
    fired_at IS NULL ORDER BY fire_at]; the columns are NOT NULL, so
    [rows.Scan] never fails. *)
Definition selectDue (rs : list ReminderRow) (now : Z) : list ReminderRow :=
  sortByFireAt (List.filter (isDue now) rs).

(** The event published for a due reminder, with the id [generateUUID]
    drew. *)
Definition reminderEvent (r : ReminderRow) (eventID : string) : AgentEvent :=
  mkAgentEvent "reminder" (rem_chat_id r) (rem_chat_id r) (rem_message r) "reminder" eventID.

(** [UPDATE reminders SET fired_at = now() WHERE id = $1] at time [t]. *)
Definition setFired (id t : Z) (r : ReminderRow) : ReminderRow :=
  if Z.eqb (rem_id r) id
  then mkReminderRow (rem_id r) (fire_at r) (rem_chat_id r) (rem_message r) (Some t)
  else r.

(** The [for _, r := range due] loop: publish, then mark.  [uuid k] is the
    [k]-th draw of [generateUUID]'s random source; [upd id] is the
    UPDATE's outcome ([Some t]: done at [now() = t]; [None]: error,
    logged). *)
Fixpoint publishDue (rs : list ReminderRow) (due : list ReminderRow)
    (uuid : nat -> string) (k : nat) (upd : Z -> option Z)
    : list ReminderRow * list Effect * nat :=
  match due with
  | [] => (rs, [], k)
  | r :: due' =>
      let pub := EffPublish (reminderEvent r (uuid k)) in
      let '(rs1, tr1) :=
        match upd (rem_id r) with
        | Some t => (map (setFired (rem_id r) t) rs, [])
        | None => (rs, [EffLog "reminder mark fired"])
        end in
      let '(rs2, tr2, k2) := publishDue rs1 due' uuid (S k) upd in
      (rs2, pub :: tr1 ++ tr2, k2)
  end.

(** [fireReminders] at time [now]; [queryOk] is the query's outcome. *)
Definition fireReminders (rs : list ReminderRow) (now : Z) (queryOk : bool)
    (uuid : nat -> string) (k : nat) (upd : Z -> option Z)
    : list ReminderRow * list Effect * nat :=
  if queryOk then publishDue rs (selectDue rs now) uuid k upd
  else (rs, [EffLog "reminder query"], k).

(** A tick of the producer: its time, the query outcome and the UPDATE
    outcomes. *)
Record Tick := mkTick { tick_now : Z; tick_queryOk : bool; tick_upd : Z -> option Z }.

(** [startReminderProducer]: [fireReminders] once at start and then once
    per ticker tick until cancellation. *)
Fixpoint reminderProducer (rs : list ReminderRow) (uuid : nat -> string) (k : nat)
    (start : Tick) (ticks : list Tick) : list ReminderRow * list Effect * nat :=
  let '(rs1, tr1, k1) :=
    fireReminders rs (tick_now start) (tick_queryOk start) uuid k (tick_upd start) in
  match ticks with
  | [] => (rs1, tr1, k1)
  | t :: ticks' =>
      let '(rs2, tr2, k2) := reminderProducer rs1 uuid k1 t ticks' in
      (rs2, tr1 ++ tr2, k2)
  end.

Definition publishedEvents (tr : list Effect) : list AgentEvent :=
  omap (fun e => match e with EffPublish ev => Some ev | _ => None end) tr.

(* ------------------------------------------------------------------ *)
(** ** Session recorder ([sdk/session]) *)

(** [Event], one JSONL line.  [Version] is 0 when omitted, [ParentID] is
    "" when omitted ([omitempty]); [Timestamp] is not modelled. *)
Record Event := mkEvent {
  se_Type : string;
  se_Version : Z;
  se_ID : string;
  se_ParentID : string;
  se_UserID : Z;
  se_Message : option Message
}.

Definition Version : Z := 1.

Definition hexDigit (n : nat) : Ascii.ascii :=
  match String.get n "0123456789abcdef" with Some c => c | None => "0"%char end.

(** [hex.EncodeToString] of one byte: two lower-case hex digits. *)
Definition hexByte (b : Byte.byte) : string :=
  let n := Byte.to_nat b in
  String (hexDigit (Nat.div n 16)) (String (hexDigit (Nat.modulo n 16)) EmptyString).

Fixpoint EncodeToString (bs : list Byte.byte) : string :=
  match bs with
  | [] => EmptyString
  | b :: bs' => String.append (hexByte b) (EncodeToString bs')
  end.

(** [newID]: [rand.Read] fills 4 bytes; [rnd k] is the [k]-th draw. *)
Definition newID (b : Byte.byte * Byte.byte * Byte.byte * Byte.byte) : string :=
  let '(b0, b1, b2, b3) := b in EncodeToString [b0; b1; b2; b3].

Definition sessionInitEvent (userID : Z) (id : string) : Event :=
  mkEvent "session" Version id "" userID None.

Definition messageEvent (msg : Message) (parentID : string) (id : string) : Event :=
  mkEvent "message" 0 id parentID 0 (Some msg).

(** [Recorder]: its user, [lastID] and the index of the next random
    draw.  The file is the list of the events written to it. *)
Record Recorder := mkRecorder {
  userID : Z;
  lastID : string;
  draw : nat
}.

Section Recorder.

Variable rnd : nat -> Byte.byte * Byte.byte * Byte.byte * Byte.byte.

(** [newRecorder] on a file holding [file]; [writeOk] is the outcome of
    writing the init record (an error closes the file and fails). *)
Definition newRecorder (file : list Event) (uid : Z) (k : nat) (writeOk : bool)
    : option (list Event * Recorder) :=
  match file with
  | [] =>
      let init := sessionInitEvent uid (newID (rnd k)) in
      if writeOk then Some ([init], mkRecorder uid (se_ID init) (S k)) else None
  | _ => Some (file, mkRecorder uid "" k)
  end.

(** [Record]; [writeOk] is the outcome of [writeEvent]: on error nothing
    is appended and [lastID] is kept. *)
Definition Record_ (r : Recorder) (file : list Event) (msg : Message) (writeOk : bool)
    : list Event * Recorder :=
  let e := messageEvent msg (lastID r) (newID (rnd (draw r))) in
  if writeOk then (file ++ [e], mkRecorder (userID r) (se_ID e) (S (draw r)))
  else (file, mkRecorder (userID r) (lastID r) (S (draw r))).

Fixpoint recordAll (r : Recorder) (file : list Event) (msgs : list (Message * bool))
    : list Event * Recorder :=
  match msgs with
  | [] => (file, r)
  | (m, ok) :: msgs' =>
      let '(file', r') := Record_ r file m ok in recordAll r' file' msgs'
  end.

End Recorder.

(** Each record after the first names its predecessor as parent. *)
Fixpoint linked (es : list Event) : Prop :=
  match es with
  | e1 :: ((e2 :: _) as es') => se_ParentID e2 = se_ID e1 /\ linked es'
  | _ => True
  end.

(** The events [es] follow a record whose id is [p], each one naming the
    previous as parent. *)
Fixpoint linkedFrom (p : string) (es : list Event) : Prop :=
  match es with
  | [] => True
  | e :: es' => se_ParentID e = p /\ linkedFrom (se_ID e) es'
  end.

(** A session file that already holds a session and a message, the draws
    used to reopen it and the message recorded next. *)
Definition file_reopened : list Event :=
  [sessionInitEvent 7 "aaaaaaaa"; messageEvent (userText "ciao") "aaaaaaaa" "bbbbbbbb"].

Definition rnd_seq (k : nat) : Byte.byte * Byte.byte * Byte.byte * Byte.byte :=
  match k with
  | O => (Byte.x0c, Byte.x0c, Byte.x0c, Byte.x0c)
  | _ => (Byte.x0d, Byte.x0d, Byte.x0d, Byte.x0d)
  end.

(* ------------------------------------------------------------------ *)
(** ** The send_user_message tool ([sendUserMessageTool.Execute]) *)

(** A row of [users]: [telegram_id], the nullable [name] and [role]. *)
Record UserRow := mkUserRow {
  telegram_id : Z;
  name : option string;
  role : string
}.

(** [COALESCE(name, '')]. *)
Definition coalesceName (u : UserRow) : string :=
  match name u with Some n => n | None => "" end.

(** The WHERE clause of the query chosen by [switch to]; [lower] is
    approximated by the ASCII [ToLower], and a NULL name never matches. *)
Definition matchesTo (to inTo : string) (u : UserRow) : bool :=
  if String.eqb to "all" then true
  else if String.eqb to "manager" || String.eqb to "cleaner" then String.eqb (role u) to
  else match name u with
       | Some n => String.eqb (ToLower n) (ToLower inTo)
       | None => false
       end.

(** The rows [(telegram_id, COALESCE(name, ''))] the query returns. *)
Definition queryRecipients (users : list UserRow) (to inTo : string) : list (Z * string) :=
  map (fun u => (telegram_id u, coalesceName u)) (List.filter (matchesTo to inTo) users).

(** The scan loop: [if r.telegramID != ctx.UserID { append }]. *)
Definition recipientsOf (userID : Z) (rows : list (Z * string)) : list (Z * string) :=
  List.filter (fun r => negb (Z.eqb r.1 userID)) rows.

(** [SELECT role FROM users WHERE telegram_id = $1]; an error leaves "". *)
Definition lookupRole (users : list UserRow) (id : Z) : string :=
  match List.find (fun u => Z.eqb (telegram_id u) id) users with
  | Some u => role u
  | None => ""
  end.

(** [senderName]: "system", or the sender's non-empty name. *)
Definition senderName (users : list UserRow) (uid : Z) : string :=
  if Z.eqb uid 0 then "system"
  else match List.find (fun u => Z.eqb (telegram_id u) uid) users with
       | Some u => if String.eqb (coalesceName u) "" then "system" else coalesceName u
       | None => "system"
       end.

Fixpoint Join (l : list string) (sep : string) : string :=
  match l with
  | [] => ""
  | [s] => s
  | s :: l' => String.append s (String.append sep (Join l' sep))
  end.

Section SendUserMessage.

Variable users : list UserRow.
Variable tctx : ToolContext.
(** [ctx.ContextInjector != nil] and [t.bus != nil]. *)
Variables (hasInjector hasBus : bool).
(** [sendOk j]: outcome of the [j]-th [tg.Send]; [uuid k]: the [k]-th
    [generateUUID] draw. *)
Variable sendOk : nat -> bool.
Variable uuid : nat -> string.

(** The [for _, r := range recipients] loop.  [EffSend] records each
    [tg.Send] call, whatever its outcome.  Returns the effects, the names
    sent to, the failure count and the next draw. *)
Fixpoint sendLoop (msg : string) (j k : nat) (rs : list (Z * string))
    : list Effect * list string * nat * nat :=
  match rs with
  | [] => ([], [], O, k)
  | (tid, nm) :: rs' =>
      let recipientRole := lookupRole users tid in
      if sendOk j then
        let nm' := if String.eqb nm "" then String.append "utente " (pretty tid) else nm in
        let inj := if hasInjector then [EffInject tid (assistantMessage msg)] else [] in
        let '(pub, k1) :=
          if String.eqb recipientRole "manager" && hasBus then
            ([EffPublish (mkAgentEvent "relay" tid tid msg
                            (senderName users (tctx_UserID tctx)) (uuid k))], S k)
          else ([], k) in
        let '(effs, names, failed, k2) := sendLoop msg (S j) k1 rs' in
        (EffSend tid msg :: inj ++ pub ++ effs, nm' :: names, failed, k2)
      else
        let '(effs, names, failed, k2) := sendLoop msg (S j) k rs' in
        (EffSend tid msg :: effs, names, S failed, k2)
  end.

(** [Execute] on the decoded arguments [inTo], [inMsg]; [queryOk] is the
    recipients query's outcome (the scan cannot fail: both columns are
    non-NULL).  Returns the tool result (text, error), the effects and the
    next draw. *)
Definition sendUserMessage (inTo inMsg : string) (queryOk : bool) (k : nat)
    : (string * option string) * list Effect * nat :=
  if String.eqb inTo "" || String.eqb inMsg "" then
    (("", Some "to and message are required"), [], k)
  else
    let to := ToLower (TrimSpace inTo) in
    if negb queryOk then (("", Some "query recipients"), [], k)
    else
      match recipientsOf (tctx_UserID tctx) (queryRecipients users to inTo) with
      | [] => (("⚠️ Nessun utente trovato per il destinatario specificato.", None), [], k)
      | recipients =>
          let '(effs, names, failed, k') := sendLoop inMsg O k recipients in
          let sent := length names in
          let result := String.append "✅ Messaggio inviato a "
                          (String.append (pretty (N.of_nat sent))
                             (String.append " utente/i: " (Join names ", "))) in
          let result := if Nat.eqb failed 0 then result
                        else String.append result
                               (String.append (String "010" "⚠️ ")
                                  (String.append (pretty (N.of_nat failed))
                                     " invio/i fallito/i.")) in
          ((result, None), effs, k')
      end.

End SendUserMessage.

(** An effect that reaches user [uid]: a message to their chat, an
    injection into their context, or an event targeted at them. *)
Definition reachesUser (uid : Z) (e : Effect) : Prop :=
  match e with
  | EffSend c _ => c = uid
  | EffInject u _ => u = uid
  | EffPublish ev => ev_TargetID ev = uid \/ ev_ChatID ev = uid
  | _ => False
  end.

(* ================================================================== *)
(** ** Further code of the SDK and of the application *)

(** [ToolRegistry.Definitions] (registry.go, 72-82): the [ToolDef]s
    ([Name], [Description]) of the registered tools, in the iteration
    order of the Go map, which is unspecified: [map_to_list] is one such
    order, and the properties below hold for any. *)
Definition Definitions (r : ToolRegistry) : list (string * string) :=
  match r with
  | None => []
  | Some tools => map (fun p => (rt_name p.2, rt_description p.2)) (map_to_list tools)
  end.

(** [ContextManager] (unnamed/part_001) with its default hooks:
    [TransformContext] keeps the last [MaxMessages] messages and
    [ConvertToLLM] is the identity. *)
Record ContextManager := mkContextManager {
  cm_Messages : list Message;
  MaxMessages : Z
}.

Definition NewContextManager (maxMessages : Z) : ContextManager :=
  mkContextManager [] (if Z.leb maxMessages 0 then 40 else maxMessages).

Definition Append (c : ContextManager) (msg : Message) : ContextManager :=
  mkContextManager (cm_Messages c ++ [msg]) (MaxMessages c).

(** The default [TransformContext]: [msgs[len(msgs)-MaxMessages:]]. *)
Definition TransformContext (c : ContextManager) (msgs : list Message) : list Message :=
  if Z.leb (Z.of_nat (length msgs)) (MaxMessages c) then msgs
  else drop (length msgs - Z.to_nat (MaxMessages c)) msgs.

Definition Prepare (c : ContextManager) : list Message :=
  TransformContext c (cm_Messages c).

Definition Reset (c : ContextManager) : ContextManager :=
  mkContextManager [] (MaxMessages c).

Definition RestoreSnapshot (c : ContextManager) (msgs : list Message) : ContextManager :=
  match msgs with
  | [] => c
  | _ => mkContextManager (msgs ++ cm_Messages c) (MaxMessages c)
  end.

(** [InMemoryBus.Publish] of several events in turn with no receiver
    draining the channel. *)
Fixpoint memPublishAll (ch : list AgentEvent) (evs : list AgentEvent) : list AgentEvent :=
  match evs with
  | [] => ch
  | ev :: evs' => memPublishAll (memPublish ch ev) evs'
  end.

(** [RegisterTool] for each of a list of tools, in order. *)
Definition registerAll (r : ToolRegistry)
    (regs : list (string * string * ToolHandler)) : ToolRegistry :=
  fold_left (fun r x => Register r x.1.1 x.1.2 x.2) regs r.

(** [generateUUID] (tools.go, 416-423) on the 16 bytes [rand.Read] drew:
    the version and variant bits are set and the bytes are printed with
    [%x] (lower-case hex, two digits a byte) as 8-4-4-4-12 groups. *)
Definition mapByte (f : N -> N) (b : Byte.byte) : Byte.byte :=
  match Byte.of_N (f (Byte.to_N b)) with Some b' => b' | None => b end.

Definition subBytes (i j : nat) (b : list Byte.byte) : list Byte.byte :=
  take (j - i) (drop i b).

Definition generateUUID (rnd : list Byte.byte) : string :=
  let b := <[6%nat := mapByte (fun x => N.lor (N.land x 15) 64) (nth 6 rnd Byte.x00)]> rnd in
  let b := <[8%nat := mapByte (fun x => N.lor (N.land x 63) 128) (nth 8 b Byte.x00)]> b in
  String.append (EncodeToString (subBytes 0 4 b))
  (String.append "-" (String.append (EncodeToString (subBytes 4 6 b))
  (String.append "-" (String.append (EncodeToString (subBytes 6 8 b))
  (String.append "-" (String.append (EncodeToString (subBytes 8 10 b))
  (String.append "-" (EncodeToString (subBytes 10 16 b))))))))).

(* ------------------------------------------------------------------ *)
(** *** Telegram client (sdk/telegram) *)


(** The last index [i] in [[start, start+k)] with [runes[i] = '\n']. *)
Fixpoint findLastNewline (runes : list Z) (start k : nat) : option nat :=
  match k with
  | O => None
  | S k' =>
      if decide (runes !! (start + k')%nat = Some 10)
      then Some (start + k')%nat
      else findLastNewline runes start k'
  end.

Fixpoint splitLoop (fuel : nat) (runes : list Z) (maxRunes start : nat)
    : option (list (list Z)) :=
  match fuel with
  | O => None
  | S fuel' =>
      if decide (start < length runes)%nat then
        let end_ := (start + maxRunes)%nat in
        if decide (length runes <= end_)%nat then Some [drop start runes]
        else
          match findLastNewline runes start maxRunes with
          | None =>
              option_map (cons (take maxRunes (drop start runes)))
                (splitLoop fuel' runes maxRunes end_)
          | Some splitAt =>
              option_map (cons (take (S splitAt - start) (drop start runes)))
                (splitLoop fuel' runes maxRunes (S splitAt))
          end
      else Some []
  end.

Definition splitAtNewlines (runes : list Z) (maxRunes : nat) : option (list (list Z)) :=
  if decide (length runes <= maxRunes)%nat then Some [runes]
  else splitLoop (S (length runes)) runes maxRunes 0.

(** The raw Telegram update (client.go): the optional message with its
    optional sender, and the optional callback query. *)
Record TelegramMsg := mkTelegramMsg {
  From : option Z;          (* From.ID *)
  Chat : Z;                 (* Chat.ID *)
  tm_Text : string
}.

Record CallbackQuery := mkCallbackQuery {
  cq_From : Z;              (* From.ID *)
  cq_Message : option TelegramMsg;
  Data : string
}.

Record TelegramUpdate := mkTelegramUpdate {
  tu_UpdateID : Z;
  tu_Message : option TelegramMsg;
  tu_CallbackQuery : option CallbackQuery
}.

(** One iteration of [Poll]'s conversion loop. *)
Definition convertUpdate (u : TelegramUpdate) : option Update :=
  match tu_Message u with
  | Some m =>
      match From m with
      | Some from =>
          if String.eqb (tm_Text m) "" then None
          else Some (mkUpdate (tu_UpdateID u) (Chat m) from (tm_Text m))
      | None => None
      end
  | None =>
      match tu_CallbackQuery u with
      | Some cq =>
          match cq_Message cq with
          | Some m =>
              if String.eqb (Data cq) "" then None
              else Some (mkUpdate (tu_UpdateID u) (Chat m) (cq_From cq) (Data cq))
          | None => None
          end
      | None => None
      end
  end.

(** [Client.Poll] once [getUpdates] answered [raw] ([None]: its error). *)
Definition Poll (raw : option (list TelegramUpdate)) : option (list Update) :=
  match raw with
  | None => None
  | Some us => Some (omap convertUpdate us)
  end.

(* ------------------------------------------------------------------ *)
(** *** Retrying HTTP requests ([sdk/llm], [doWithRetry]) *)

(** An error of [fn]: [netTimeout] is [None] when it is not a [net.Error],
    else its [Timeout()]; [errMsg] is [err.Error()] (ASCII text, on which
    [strings.ToLower] lowers the letters A-Z). *)
Record HttpErr := mkHttpErr {
  netTimeout : option bool;
  errMsg : string
}.

(** What one call of [fn] gave: a response with its status code, or an
    error. *)
Inductive Outcome :=
  | OResp (status : Z)
  | OErr (e : HttpErr).

(** The errors [doWithRetry] returns: the context's, the last error of
    [fn], or [errors.New(resp.Status)] of a retryable response. *)
Inductive RetryErr :=
  | ECtx
  | EFn (e : HttpErr)
  | EStatus (status : Z).

Inductive RetryResult :=
  | RetResp (status : Z)
  | RetErr (e : option RetryErr).

Definition DefaultMaxRetries : Z := 3.

Definition shouldRetryStatus (status : Z) : bool :=
  Z.eqb status 429 || (Z.leb 500 status && Z.leb status 599).

(** [strings.Contains s sub]. *)
Definition Contains (s sub : string) : bool :=
  match String.index 0 sub s with Some _ => true | None => false end.

Definition shouldRetryError (e : HttpErr) : bool :=
  if match netTimeout e with Some t => t | None => false end then true
  else
    let msg := ToLower (errMsg e) in
    Contains msg "connection reset" || Contains msg "connection refused"
    || Contains msg "timeout" || Contains msg "temporary".

Section Retry.

(** [ctxErr i]: [ctx.Err() != nil] at the top of attempt [i];
    [fnOut i]: what [fn()] gave at attempt [i]; [sleepOk i]: the
    [sleepContext] after attempt [i] slept to its end (else it gave the
    context's error).  The delay of [retryDelay] only decides how long the
    sleep is, which these outcomes already fix. *)
Variable ctxErr : nat -> bool.
Variable fnOut : nat -> Outcome.
Variable sleepOk : nat -> bool.

(** The [for attempt] loop from [attempt], [k] iterations being left
    before [attempt > MaxRetries]; the result and the number of calls of
    [fn]. *)
Fixpoint retryLoop (k attempt maxR : nat) (lastErr : option RetryErr)
    : RetryResult * nat :=
  match k with
  | O => (RetErr lastErr, O)
  | S k' =>
      if ctxErr attempt then (RetErr (Some ECtx), O)
      else
        match fnOut attempt with
        | OResp st =>
            if negb (shouldRetryStatus st) || Nat.eqb attempt maxR then (RetResp st, 1%nat)
            else if sleepOk attempt then
              let '(r, n) := retryLoop k' (S attempt) maxR (Some (EStatus st)) in (r, S n)
            else (RetErr (Some ECtx), 1%nat)
        | OErr e =>
            if negb (shouldRetryError e) || Nat.eqb attempt maxR then (RetErr (Some (EFn e)), 1%nat)
            else if sleepOk attempt then
              let '(r, n) := retryLoop k' (S attempt) maxR (Some (EFn e)) in (r, S n)
            else (RetErr (Some ECtx), 1%nat)
        end
  end.

(** The effective [MaxRetries]. *)
Definition effMaxRetries (MaxRetries : Z) : nat :=
  Z.to_nat (if Z.leb MaxRetries 0 then DefaultMaxRetries else MaxRetries).

Definition doWithRetry (MaxRetries : Z) : RetryResult * nat :=
  let maxR := effMaxRetries MaxRetries in
  retryLoop (S maxR) 0 maxR None.

End Retry.

(* ------------------------------------------------------------------ *)
(** *** Per-user session store ([sdk/session], [Store]) *)

(** The open recorders by user, and the session files by user (a missing
    file reads as empty). *)
Record Store := mkStore {
  recorders : gmap Z Recorder;
  files : gmap Z (list Event)
}.

Definition fileOf (s : Store) (uid : Z) : list Event :=
  match files s !! uid with Some f => f | None => [] end.

(** [recorderFor]: the cached recorder, or [newRecorder] on the user's
    file ([k] its next random draw, [openOk] the outcome of writing its
    init record); [None] is the error. *)
Definition recorderFor (rnd : nat -> Byte.byte * Byte.byte * Byte.byte * Byte.byte)
    (s : Store) (uid : Z) (k : nat) (openOk : bool) : option (Store * Recorder) :=
  match recorders s !! uid with
  | Some r => Some (s, r)
  | None =>
      match newRecorder rnd (fileOf s uid) uid k openOk with
      | None => None
      | Some (f, r) => Some (mkStore (<[uid := r]> (recorders s)) (<[uid := f]> (files s)), r)
      end
  end.

(** [Store.Record]: on an error of [recorderFor] nothing is recorded;
    [writeOk] is the outcome of the recorder's [writeEvent]. *)
Definition Store_Record (rnd : nat -> Byte.byte * Byte.byte * Byte.byte * Byte.byte)
    (s : Store) (uid : Z) (msg : Message) (k : nat) (openOk writeOk : bool) : Store :=
  match recorderFor rnd s uid k openOk with
  | None => s
  | Some (s', r) =>
      let '(f', r') := Record_ rnd r (fileOf s' uid) msg writeOk in
      mkStore (<[uid := r']> (recorders s')) (<[uid := f']> (files s'))
  end.

(** [Store.Close]: the recorders are closed and forgotten; the files stay. *)
Definition Store_Close (s : Store) : Store := mkStore ∅ (files s).

(** A run of [Store.Record] calls: user, message, draw index of a new
    recorder, and the two write outcomes. *)
Fixpoint Store_RecordAll (rnd : nat -> Byte.byte * Byte.byte * Byte.byte * Byte.byte)
    (s : Store) (calls : list (Z * Message * nat * bool * bool)) : Store :=
  match calls with
  | [] => s
  | (uid, msg, k, o, w) :: calls' => Store_RecordAll rnd (Store_Record rnd s uid msg k o w) calls'
  end.

(* ------------------------------------------------------------------ *)
(** *** Reminder loop over Telegram (reminder.go, 43-81) *)

(** The [for _, r := range due] loop of the Telegram version of
    [fireReminders]: send, and mark the row fired only when the send
    succeeded.  [sendOk j] is the outcome of the [j]-th [tg.Send];
    [upd id] the UPDATE's, as for the bus version; the [log.Printf] lines
    are [EffLog]s. *)
Fixpoint sendDue (rs due : list ReminderRow) (j : nat) (sendOk : nat -> bool)
    (upd : Z -> option Z) : list ReminderRow * list Effect :=
  match due with
  | [] => (rs, [])
  | r :: due' =>
      let send := EffSend (rem_chat_id r) (rem_message r) in
      if sendOk j then
        let '(rs1, tr1) :=
          match upd (rem_id r) with
          | Some t => (map (setFired (rem_id r) t) rs, [EffLog "reminder fired"])
          | None => (rs, [EffLog "reminder mark fired"])
          end in
        let '(rs2, tr2) := sendDue rs1 due' (S j) sendOk upd in
        (rs2, send :: tr1 ++ tr2)
      else
        let '(rs2, tr2) := sendDue rs due' (S j) sendOk upd in
        (rs2, send :: EffLog "reminder send" :: tr2)
  end.

(** [fireReminders] of reminder.go at time [now]; the query error is
    logged only while the context is alive. *)
Definition fireRemindersTG (rs : list ReminderRow) (now : Z) (queryOk ctxAlive : bool)
    (sendOk : nat -> bool) (upd : Z -> option Z) : list ReminderRow * list Effect :=
  if queryOk then sendDue rs (selectDue rs now) 0 sendOk upd
  else (rs, if ctxAlive then [EffLog "reminder query"] else []).

(* ------------------------------------------------------------------ *)
(** *** [scheduleReminderTool.Execute] (tools.go, 918-970) *)

(** The decoded arguments of the tool. *)
Record ReminderArgs := mkReminderArgs {
  ra_FireAt : string;
  ra_Message : string;
  ra_To : string;
  ra_RoomID : option Z
}.

(** [SELECT telegram_id, name FROM users WHERE lower(name) = lower($1)]
    scanned with [QueryRow]: the first matching row of [users]
    ([telegram_id], [name]). *)
Definition lookupUser (users : list (Z * string)) (name : string) : option (Z * string) :=
  List.find (fun '(_, n) => String.eqb (ToLower n) (ToLower name)) users.

Section ScheduleReminder.

(** [time.Parse(time.RFC3339, _)]: the error's text or the instant. *)
Variable parseTime : string -> string + Z.
(** The [fmt.Sprintf] of the reply, from the instant (printed as date and
    time) and the destination's name. *)
Variable formatReply : Z -> string -> string.

(** [args] is the outcome of [json.Unmarshal]; [now] is [time.Now()];
    [rs] the [reminders] table (the columns [fireReminders] reads), where
    the INSERT adds a row with the serial id [nextID], or fails with the
    error [insertErr].  The result is the tool's [(string, error)] and the
    table after the call. *)
Definition scheduleReminder (users : list (Z * string)) (tctx : ToolContext)
    (args : string + ReminderArgs) (now : Z) (rs : list ReminderRow)
    (nextID : Z) (insertErr : option string)
    : (string * option string) * list ReminderRow :=
  match args with
  | inl e => (("", Some e), rs)
  | inr a =>
      if String.eqb (ra_FireAt a) "" || String.eqb (ra_Message a) "" then
        (("", Some "fire_at and message are required"), rs)
      else
        match parseTime (ra_FireAt a) with
        | inl e =>
            (("", Some (String.append "invalid fire_at format, use ISO 8601 with timezone (e.g. 2026-02-24T10:30:00+01:00): " e)), rs)
        | inr fireAt =>
            if Z.ltb fireAt now then (("", Some "fire_at must be in the future"), rs)
            else
              let dest :=
                if negb (String.eqb (ra_To a) "") && negb (String.eqb (ra_To a) "me")
                   && negb (String.eqb (ra_To a) "io")
                then lookupUser users (ra_To a)
                else Some (tctx_ChatID tctx, "") in
              match dest with
              | None =>
                  (("", Some (String.append "utente '" (String.append (ra_To a) "' non trovato"))), rs)
              | Some (chatID, toName) =>
                  match insertErr with
                  | Some e => (("", Some (String.append "insert reminder: " e)), rs)
                  | None =>
                      let dest := if String.eqb toName "" then "te" else toName in
                      ((formatReply fireAt dest, None),
                       rs ++ [mkReminderRow nextID fireAt chatID (ra_Message a) None])
                  end
              end
        end
  end.

End ScheduleReminder.

(* ------------------------------------------------------------------ *)
(** *** [htmlEscape] (telegram/format.go, 326-331) *)

(** [strings.ReplaceAll(s, old, new)] with a one-byte [old]: every
    occurrence of the byte, left to right, becomes [new]. *)
Fixpoint ReplaceAllByte (s : string) (old : Ascii.ascii) (new : string) : string :=
  match s with
  | EmptyString => EmptyString
  | String c s' =>
      if Ascii.eqb c old then String.append new (ReplaceAllByte s' old new)
      else String c (ReplaceAllByte s' old new)
  end.

Definition htmlEscape (s : string) : string :=
  let s := ReplaceAllByte s "&"%char "&amp;" in
  let s := ReplaceAllByte s "<"%char "&lt;" in
  let s := ReplaceAllByte s ">"%char "&gt;" in
  s.

(* ------------------------------------------------------------------ *)
(** *** [Client.Send] and [Client.sendChunk] (telegram/send.go, 21-54) *)



Section TelegramSend.

(** [markdownToTelegramHTML] (format.go), on runes. *)
Variable markdownToTelegramHTML : list Z -> list Z.
(** [doSend j]: the error of the [j]-th [sendMessage] call, if any. *)
Variable doSend : nat -> option string.




End TelegramSend.

(* ------------------------------------------------------------------ *)
(** ** Auxiliary definitions and sample inputs used by the properties *)

(** Scenario 2 of the spec: one tool call "c1" to "echo", then a text. *)
Definition echoHandler : ToolHandler := fun _ _ => ("tool-result", None).
Definition echoRegistry : ToolRegistry :=
  Register (Some ∅) "echo" "echoes" echoHandler.
Definition scen2_ctx : ToolContext := mkToolContext 22 11 0 "".
Definition scen2_answers : list (option Response) :=
  [Some (mkResponse "tool_use" "" [mkToolCall "c1" "echo" "{}"] (mkUsage 1 1));
   Some (mkResponse "text" "done" [] (mkUsage 2 2))].

Definition is_commit (e : Effect) : bool :=
  match e with EffCommit _ => true | _ => false end.

Definition no_commit (tr : list Effect) : Prop := Forall (fun e => is_commit e = false) tr.

Definition o_plain : Options := mkOptions (Some ∅) None None None false.
Definition a_empty : Agent := mkAgent ∅ ∅.
Definition upd5 : Update := mkUpdate 5 10 20 "hello".

Definition row_e1 : EventRow := mkEventRow 1 "e1" 20 20 "relay" "hi" "Berni" 0 None.
Definition bus_e1 : PersistentBus := mkPersistentBus (mkEventStore [row_e1] 2) [].

(** Every column of a row but [processed_at]. *)
Definition rowKey (r : EventRow) :=
  (row_id r, r_event_id r, r_target_user_id r, r_chat_id r, r_kind r, r_content r,
   r_source r, r_created_at r).

Definition createdLe (r1 r2 : EventRow) : Prop := r_created_at r1 <= r_created_at r2.

(** The row of [eid] is in the store and every row of [eid] is
    processed. *)
Definition processed_in (s : EventStore) (eid : string) : Prop :=
  (exists r, In r (rows s) /\ r_event_id r = eid) /\
  (forall r, In r (rows s) -> r_event_id r = eid -> r_processed_at r <> None).

Definition fireLe (r1 r2 : ReminderRow) : Prop := fire_at r1 <= fire_at r2.

(** The state of a row after the UPDATEs issued for the rows [due]. *)
Definition firedRow (upd : Z -> option Z) (due : list ReminderRow) (r : ReminderRow)
    : ReminderRow :=
  if existsb (fun d => Z.eqb (rem_id d) (rem_id r)) due then
    match upd (rem_id r) with Some t => setFired (rem_id r) t r | None => r end
  else r.

(** The shape of a session store in which every user's file is one chain:
    a user with no open recorder has an empty file; a user with one has a
    file that starts with its session record, followed by messages each
    naming the previous record as parent, the recorder's [lastID] being
    the id of the last record. *)
Definition store_chained (s : Store) : Prop :=
  forall uid,
    (recorders s !! uid = None /\ fileOf s uid = []) \/
    (exists r init rest, recorders s !! uid = Some r /\ fileOf s uid = init :: rest /\
       se_Type init = "session" /\ se_UserID init = uid /\ se_ParentID init = "" /\
       linkedFrom (se_ID init) rest /\ Forall (fun e => se_Type e = "message") rest /\
       lastID r = List.last (map se_ID rest) (se_ID init)).

(** A reminder due at time 5 and not yet fired. *)
Definition rem_r1 : ReminderRow := mkReminderRow 1 5 10 "call mum" None.

(** The due rows, from the [j]-th send on, whose [tg.Send] succeeded. *)
Fixpoint sentRows (due : list ReminderRow) (j : nat) (sendOk : nat -> bool) : list ReminderRow :=
  match due with
  | [] => []
  | d :: due' => if sendOk j then d :: sentRows due' (S j) sendOk else sentRows due' (S j) sendOk
  end.

(** A user at the throttle limit; options with a refusing authorizer;
    options with a persistent bus. *)
Definition a_busy : Agent := mkAgent ∅ {[20 := 10]}.

Definition o_refuse : Options :=
  mkOptions (Some ∅) None (Some (fun _ _ => ("not allowed", None))) None false.


(* ================================================================== *)
(** The offsets committed by a trace, in order. *)
Definition commitsOf (tr : list Effect) : list Z :=
  omap (fun e => match e with EffCommit n => Some n | _ => None end) tr.

(** Reading HTML entities back: [&amp;], [&lt;] and [&gt;] become the
    byte they stand for. *)
Fixpoint htmlUnescape (s : string) : string :=
  match s with
  | String "&" (String "a" (String "m" (String "p" (String ";" r)))) => String "&" (htmlUnescape r)
  | String "&" (String "l" (String "t" (String ";" r))) => String "<" (htmlUnescape r)
  | String "&" (String "g" (String "t" (String ";" r))) => String ">" (htmlUnescape r)
  | String c r => String c (htmlUnescape r)
  | EmptyString => EmptyString
  end.

(** What [htmlEscape] turns one byte into. *)
Definition escByte (c : Ascii.ascii) : string :=
  if Ascii.eqb c "&" then "&amp;"
  else if Ascii.eqb c "<" then "&lt;"
  else if Ascii.eqb c ">" then "&gt;"
  else String c EmptyString.


(* ################################################################## *)
(** * Properties *)


(** Scenario 2 runs to its end with the two answers. *)
Example scen2_run :
  let '(c, tr, st) := runLLMTurn echoRegistry scen2_ctx 11 [userText "calc"] scen2_answers in
  tr = [EffSend 11 "done"] /\ st = Finished /\
  c !! 2%nat = Some (toolResultMessage
                  [toolResultBlock (mkToolResult "c1" "tool-result" false)]).
Proof. vm_compute. auto. Qed.


Section SnapshotLemmas.
Context {A : Type}.
Implicit Types (h : Heap A) (s : Slice).

Lemma read_insert_ne h s a c :
  a <> sl_arr s -> read (<[a := c]> h) s = read h s.
Proof. intros Hne. unfold read. rewrite lookup_insert_ne; congruence. Qed.

Lemma slice_ok_in_dom h s : slice_ok h s -> sl_arr s ∈ dom h.
Proof.
  unfold slice_ok. intros Hok. apply elem_of_dom.
  destruct (h !! sl_arr s); [eauto | contradiction].
Qed.

Lemma read_length h s : slice_ok h s -> length (read h s) = sl_len s.
Proof.
  unfold slice_ok, read. destruct (h !! sl_arr s) as [arr|]; [|done].
  intros Hok. rewrite length_take, length_drop. lia.
Qed.

Lemma read_reslice h s start :
  read h (reslice_from s start) = drop start (read h s).
Proof.
  unfold read, reslice_from; simpl. destruct (h !! sl_arr s) as [arr|].
  - rewrite skipn_firstn_comm, drop_drop. done.
  - by rewrite drop_nil.
Qed.

Lemma read_make_copy h n (src : list A) zero :
  length src = n ->
  read (make_copy h n src zero).1 (make_copy h n src zero).2 = src.
Proof.
  intros Hlen. unfold make_copy, read; simpl.
  rewrite lookup_insert_eq. simpl.
  rewrite drop_0, Hlen, Nat.sub_diag. simpl. rewrite app_nil_r.
  rewrite take_idemp. by apply take_ge; lia.
Qed.

Lemma write_all_preserves h s t ws h' :
  sl_arr s <> sl_arr t -> write_all h s ws = Some h' -> read h' t = read h t.
Proof.
  revert h. induction ws as [|[i x] ws IH]; intros h Hne Hw; simpl in Hw.
  - by injection Hw as <-.
  - destruct (write h s i x) as [h1|] eqn:E; [|discriminate].
    rewrite (IH h1 Hne Hw). unfold write in E.
    destruct (decide (i < sl_len s)%nat); [|discriminate].
    destruct (h !! sl_arr s); [|discriminate].
    injection E as <-. apply read_insert_ne. done.
Qed.

End SnapshotLemmas.

(** C10: [Snapshot(n)] allocates a fresh array, so no sequence of writes
    through the returned slice changes the stored [Messages]; it holds all
    messages when [n <= 0] or [n >= len(Messages)], and otherwise exactly
    the last [n]. *)
Theorem Snapshot_fresh_copy {A : Type} (h : Heap A) (messages : Slice) (n : Z)
    (zero : A) :
  slice_ok h messages ->
  let '(h1, out) := Snapshot h messages n zero in
  (sl_arr out ∉ dom h) /\
  read h1 messages = read h messages /\
  (forall ws h2, write_all h1 out ws = Some h2 ->
                 read h2 messages = read h messages) /\
  ((n <= 0 \/ Z.of_nat (length (read h messages)) <= n) ->
     read h1 out = read h messages) /\
  ((0 < n < Z.of_nat (length (read h messages))) ->
     read h1 out = drop (length (read h messages) - Z.to_nat n) (read h messages) /\
     length (read h1 out) = Z.to_nat n).
Proof.
  intros Hok. pose proof (read_length h messages Hok) as Hlen.
  pose proof (slice_ok_in_dom h messages Hok) as Hin.
  assert (Hfresh : forall k src, sl_arr (make_copy h k src zero).2 ∉ dom h)
    by (intros; simpl; apply is_fresh).
  assert (Hne : forall k src,
             sl_arr (make_copy h k src zero).2 <> sl_arr messages)
    by (intros k src Heq; apply (Hfresh k src); rewrite Heq; exact Hin).
  assert (Hkeep : forall k src,
             read (make_copy h k src zero).1 messages = read h messages)
    by (intros k src; pose proof (Hne k src) as X; simpl in X;
        unfold make_copy; simpl; apply read_insert_ne; exact X).
  unfold Snapshot. rewrite Hlen.
  destruct (Z.leb n 0 || Z.leb (Z.of_nat (sl_len messages)) n) eqn:Hc.
  - destruct (make_copy h (sl_len messages) (read h messages) zero) as [h1 out] eqn:E.
    pose proof (Hfresh (sl_len messages) (read h messages)) as F1.
    pose proof (Hne (sl_len messages) (read h messages)) as F2.
    pose proof (Hkeep (sl_len messages) (read h messages)) as F3.
    pose proof (read_make_copy h (sl_len messages) (read h messages) zero Hlen) as F4.
    rewrite E in F1, F2, F3, F4. cbn [fst snd] in *.
    split; [done|]. split; [done|]. split.
    + intros ws h2 Hw. rewrite (write_all_preserves h1 out messages ws h2 F2 Hw). done.
    + split; [done|]. intros Hn.
      apply orb_true_iff in Hc. rewrite !Z.leb_le in Hc. lia.
  - set (start := (sl_len messages - Z.to_nat n)%nat).
    assert (Hsrc : length (read h (reslice_from messages start)) = Z.to_nat n).
    { rewrite read_reslice, length_drop, Hlen.
      apply orb_false_iff in Hc. rewrite !Z.leb_gt in Hc. unfold start. lia. }
    destruct (make_copy h (Z.to_nat n) (read h (reslice_from messages start)) zero)
      as [h1 out] eqn:E.
    pose proof (Hfresh (Z.to_nat n) (read h (reslice_from messages start))) as F1.
    pose proof (Hne (Z.to_nat n) (read h (reslice_from messages start))) as F2.
    pose proof (Hkeep (Z.to_nat n) (read h (reslice_from messages start))) as F3.
    pose proof (read_make_copy h (Z.to_nat n) _ zero Hsrc) as F4.
    rewrite E in F1, F2, F3, F4. cbn [fst snd] in *.
    split; [done|]. split; [done|]. split.
    + intros ws h2 Hw. rewrite (write_all_preserves h1 out messages ws h2 F2 Hw). done.
    + apply orb_false_iff in Hc. rewrite !Z.leb_gt in Hc. split; [lia|].
      intros _. rewrite F4. split.
      * rewrite read_reslice. done.
      * exact Hsrc.
Qed.

Lemma Snapshot_fresh_copy_witness :
  let h : Heap nat := {[1%positive := [10; 20; 30]%nat]} in
  let m := mkSlice 1 0 3 in
  slice_ok h m /\
  (let '(h1, out) := Snapshot h m 2 0%nat in read h1 out = [20; 30]%nat).
Proof.
  intros h m.
  assert (Hok : slice_ok h m) by (vm_compute; lia).
  split; [exact Hok|].
  pose proof (Snapshot_fresh_copy h m 2 0%nat Hok) as T.
  assert (Hr : read h m = [10; 20; 30]%nat) by reflexivity.
  rewrite Hr in T.
  destruct (Snapshot h m 2 0%nat) as [h1 out].
  destruct T as (_ & _ & _ & _ & T).
  destruct T as [T _]; [simpl; lia|].
  rewrite T. reflexivity.
Defined.

(** [Execute] always answers with a [ToolResult] whose [ToolCallID] is
    empty, so the turn cycle fills it in with the call's id. *)
Lemma Execute_ToolCallID r name args ctx :
  ToolCallID (Execute r name args ctx) = "".
Proof.
  destruct r as [tools|]; simpl; [|done].
  destruct (tools !! name) as [tool|]; [|done].
  destruct (rt_handler tool) as [h|]; [|done].
  destruct (h ctx args) as [res [err|]]; done.
Qed.

Lemma dispatchOne_spec reg toolCtx c :
  dispatchOne reg toolCtx c =
  toolResultBlock
    (mkToolResult (tc_ID c)
       (tr_Content (Execute reg (tc_Name c) (tc_Arguments c) toolCtx))
       (IsError (Execute reg (tc_Name c) (tc_Arguments c) toolCtx))).
Proof. unfold dispatchOne. rewrite Execute_ToolCallID. done. Qed.

(** C3: on a [tool_use] answer the turn appends the assistant message of
    [tool_use] blocks (one per call, in response order, carrying the
    usage), then exactly one user message of [tool_result] blocks whose
    i-th block answers the i-th call: its [ToolCallID] is that call's id
    and its content and error flag are those of the registry's
    [Execute] for that call; then the loop continues with the next
    provider answer. *)
Theorem runLLMTurn_tool_use reg toolCtx chatID ctx resp rest :
  resp_Type resp = "tool_use" ->
  let calls := resp_ToolCalls resp in
  let results := dispatchAll reg toolCtx calls in
  runLLMTurn reg toolCtx chatID ctx (Some resp :: rest) =
    runLLMTurn reg toolCtx chatID
      (ctx ++ [mkMessage "assistant"
                 (map (fun tc => mkBlock "tool_use" "" (Some tc) None) calls)
                 (Some (resp_Usage resp));
               mkMessage "user" results None]) rest /\
  length results = length calls /\
  (forall i c, calls !! i = Some c ->
     exists r, results !! i = Some (mkBlock "tool_result" "" None (Some r)) /\
               ToolCallID r = tc_ID c /\
               tr_Content r = tr_Content (Execute reg (tc_Name c) (tc_Arguments c) toolCtx) /\
               IsError r = IsError (Execute reg (tc_Name c) (tc_Arguments c) toolCtx)).
Proof.
  intros Htype calls results. split; [|split].
  - simpl. rewrite Htype. reflexivity.
  - unfold results, dispatchAll. apply length_map.
  - intros i c Hc. unfold results, dispatchAll.
    rewrite list_lookup_fmap, Hc. simpl. rewrite dispatchOne_spec.
    eexists. split; [reflexivity|]. simpl. auto.
Qed.

Lemma runLLMTurn_tool_use_witness :
  resp_Type (mkResponse "tool_use" "" [mkToolCall "c1" "echo" "{}"] (mkUsage 1 1))
    = "tool_use" /\
  dispatchAll echoRegistry scen2_ctx [mkToolCall "c1" "echo" "{}"] !! 0%nat =
    Some (toolResultBlock (mkToolResult "c1" "tool-result" false)).
Proof.
  split; [reflexivity|].
  destruct (runLLMTurn_tool_use echoRegistry scen2_ctx 11 [userText "calc"]
              (mkResponse "tool_use" "" [mkToolCall "c1" "echo" "{}"] (mkUsage 1 1))
              [] eq_refl) as (_ & _ & H).
  destruct (H 0%nat (mkToolCall "c1" "echo" "{}") eq_refl) as (r & Hr & Hid & Hc & He).
  change (dispatchAll echoRegistry scen2_ctx [mkToolCall "c1" "echo" "{}"] !! 0%nat = Some (toolResultBlock (mkToolResult "c1" "tool-result" false))).
  cbn [resp_ToolCalls] in Hr. rewrite Hr. destruct r as [id ct er]. simpl in Hid, Hc, He.
  rewrite Hid, Hc, He. reflexivity.
Defined.

(* ------------------------------------------------------------------ *)
(** *** Offset commits (C1) *)


Lemma runLLMTurn_no_commit reg toolCtx chatID ctx answers :
  no_commit (runLLMTurn reg toolCtx chatID ctx answers).1.2.
Proof.
  revert ctx. induction answers as [|[resp|] rest IH]; intros ctx; simpl.
  - constructor.
  - destruct (String.eqb (resp_Type resp) "text"); [repeat constructor|].
    destruct (String.eqb (resp_Type resp) "tool_use"); [apply IH|repeat constructor].
  - repeat constructor.
Qed.

Lemma turnFor_no_commit o a userID chatID now answers :
  no_commit (turnFor o a userID chatID now answers).1.2.
Proof.
  unfold turnFor.
  assert (Hx : no_commit (buildExtra o userID chatID).2).
  { unfold buildExtra. destruct (BuildExtra o) as [f|]; [|constructor].
    destruct (f userID chatID) as [x [e|]]; repeat constructor. }
  destruct (buildExtra o userID chatID) as [extra tr0].
  pose proof (runLLMTurn_no_commit (Registry o) (mkToolContext userID chatID now extra)
                chatID (default [] (contexts a !! userID)) answers) as Hr.
  destruct (runLLMTurn _ _ _ _ _) as [[c tr1] st]. simpl in *.
  apply Forall_app. auto.
Qed.

Ltac split_matches :=
  repeat match goal with
  | |- context [match ?x with _ => _ end] =>
      lazymatch x with
      | context [match _ with _ => _ end] => fail
      | _ => destruct x eqn:?
      end
  end.

Lemma handleTelegramUpdate_commit o a u now answers offsetPtr :
  let '(_, tr, st) := handleTelegramUpdate o a u now answers offsetPtr in
  (st = Running /\ no_commit tr) \/
  (st = Finished /\ exists pre, no_commit pre /\ tr = pre ++ commit offsetPtr u).
Proof.
  unfold handleTelegramUpdate.
  set (a0 := setCount a (u_UserID u) 0).
  pose proof (turnFor_no_commit o (appendTo a0 (u_UserID u) (userText (u_Text u)))
                (u_UserID u) (u_ChatID u) now answers) as Ht.
  destruct (turnFor _ _ _ _ _ _) as [[a1 tr1] st1] eqn:Eturn. simpl in Ht.
  split_matches; cbn beta iota zeta;
    try (right; split; [reflexivity|]; eexists; split; [|reflexivity]; repeat constructor; done);
    try (left; split; [reflexivity|]; exact Ht);
    try (right; split; [reflexivity|]; eexists; split; [exact Ht|reflexivity]);
    try discriminate.
Qed.


(** C1 fails with an event bus configured: the poller goroutine of
    [runUnified] sets its offset to [update.UpdateID + 1] when it forwards
    the update to the dispatcher channel, and polls Telegram with that
    offset while the update's turn has not even started. *)
Lemma runUnified_offset_before_turn :
  exists s,
    rtc (unified_step o_plain) (unified_init a_empty) s /\
    un_offset s = UpdateID upd5 + 1 /\
    un_polls s = [0; UpdateID upd5 + 1] /\
    un_chan s = [upd5] /\
    un_dispatched s = [] /\ un_trace s = [].
Proof.
  exists (mkUnified 6 [0; 6] [] [upd5] a_empty [] []). split.
  - eapply rtc_l.
    { apply (US_Poll o_plain (unified_init a_empty) [upd5]). reflexivity. }
    eapply rtc_l.
    { apply (US_Forward o_plain _ upd5 []); [reflexivity|]. simpl. lia. }
    eapply rtc_l.
    { apply US_Poll. reflexivity. }
    apply rtc_refl.
  - simpl. repeat split.
Qed.

(** C1 (amended): [handleTelegramUpdate] called with an offset pointer
    (the Telegram-only loop) commits [update.UpdateID + 1] as its last
    effect, after the turn or the early reply, on every path, and commits
    nothing while the turn is running; called with a nil pointer (the
    unified loop) it never commits; and the unified poller advances its
    offset to [update.UpdateID + 1] when it forwards the update to the
    channel, before the dispatcher handles it. *)
Theorem offset_commit_amended o a u now answers :
  (let '(_, tr, st) := handleTelegramUpdate o a u now answers true in
     (st = Running /\ no_commit tr) \/
     (st = Finished /\ exists pre, no_commit pre /\ tr = pre ++ [EffCommit (UpdateID u + 1)])) /\
  no_commit (handleTelegramUpdate o a u now answers false).1.2 /\
  (forall s rest, un_pending s = u :: rest -> (length (un_chan s) < 64)%nat ->
     exists s', unified_step o s s' /\ un_offset s' = UpdateID u + 1 /\
                un_chan s' = un_chan s ++ [u] /\ un_dispatched s' = un_dispatched s).
Proof.
  split; [|split].
  - pose proof (handleTelegramUpdate_commit o a u now answers true) as H.
    destruct (handleTelegramUpdate o a u now answers true) as [[a' tr] st]. exact H.
  - pose proof (handleTelegramUpdate_commit o a u now answers false) as H.
    destruct (handleTelegramUpdate o a u now answers false) as [[a' tr] st]. simpl.
    destruct H as [[_ H] | [_ [pre [Hp ->]]]]; [exact H|]. simpl. by rewrite app_nil_r.
  - intros s rest Hp Hc. eexists. split; [eapply US_Forward; eauto|]. simpl. auto.
Qed.

Lemma offset_commit_amended_witness :
  exists s', unified_step o_plain
               (mkUnified 0 [0] [upd5] [] a_empty [] []) s' /\
             un_offset s' = 6.
Proof.
  destruct (offset_commit_amended o_plain a_empty upd5 0 [] ) as (_ & _ & H).
  destruct (H (mkUnified 0 [0] [upd5] [] a_empty [] []) [] eq_refl) as (s' & Hs & Ho & _).
  { simpl. lia. }
  exists s'. split; [exact Hs|]. rewrite Ho. reflexivity.
Defined.

(* ------------------------------------------------------------------ *)
(** *** Self-talk throttle (C6) *)

Lemma turnFor_counts o a userID chatID now answers :
  consecutiveEventCount (turnFor o a userID chatID now answers).1.1 =
  consecutiveEventCount a.
Proof.
  unfold turnFor. destruct (buildExtra o userID chatID) as [extra tr0].
  destruct (runLLMTurn _ _ _ _ _) as [[c tr1] st]. reflexivity.
Qed.

Lemma countOf_setCount a u c : countOf (setCount a u c) u = c.
Proof. unfold countOf, setCount. simpl. by rewrite lookup_insert_eq. Qed.

Lemma countOf_same_counts a a' u :
  consecutiveEventCount a' = consecutiveEventCount a -> countOf a' u = countOf a u.
Proof. unfold countOf. intros ->. done. Qed.

(** C6: a platform update resets its user's counter to 0 on every path;
    a bus event increments its target's counter; when the incremented
    count exceeds 10 the handler logs and sleeps 30 s and then, unless the
    sleep was cancelled, still runs the turn for the event on the target's
    context extended with the event's message; only a cancelled sleep
    returns without processing the event. *)
Theorem consecutive_event_count_throttle :
  (forall o a u now answers offsetPtr,
     countOf (handleTelegramUpdate o a u now answers offsetPtr).1.1 (u_UserID u) = 0) /\
  (forall o a ev now answers cancelled,
     let target := ev_TargetID ev in
     let c := countOf a target + 1 in
     let '(a', tr, _) := handleEvent o a ev now answers cancelled in
     countOf a' target = c /\
     ((cancelled = false \/ c <= 10) ->
        exists rest,
          tr = (if Z.ltb 10 c then [EffLog "handle_event"; EffSleep30] else []) ++ rest /\
          contexts a' =
          contexts (turnFor o (appendTo (setCount a target c) target
                                   (userText (eventContent ev)))
                      target (ev_ChatID ev) now answers).1.1) /\
     ((cancelled = true /\ 10 < c) ->
        tr = [EffLog "handle_event"] /\ contexts a' = contexts a)).
Proof.
  split.
  - intros o a u now answers offsetPtr. unfold handleTelegramUpdate.
    set (a0 := setCount a (u_UserID u) 0).
    assert (H0 : countOf a0 (u_UserID u) = 0) by apply countOf_setCount.
    pose proof (turnFor_counts o (appendTo a0 (u_UserID u) (userText (u_Text u)))
                  (u_UserID u) (u_ChatID u) now answers) as Hc.
    destruct (turnFor _ _ _ _ _ _) as [[a1 tr1] st1] eqn:Eturn. simpl in Hc.
    split_matches; cbn beta iota zeta; try exact H0;
      rewrite (countOf_same_counts a0 a1 _ Hc); exact H0.
  - intros o a ev now answers cancelled target c.
    unfold handleEvent. fold target. fold c.
    set (a0 := setCount a target c).
    assert (H0 : countOf a0 target = c) by apply countOf_setCount.
    rewrite H0.
    set (a1 := appendTo a0 target (userText (eventContent ev))).
    pose proof (turnFor_counts o a1 target (ev_ChatID ev) now answers) as Hc.
    destruct (turnFor o a1 target (ev_ChatID ev) now answers) as [[a2 tr2] st2] eqn:Eturn.
    simpl in Hc.
    assert (H2 : countOf a2 target = c) by (rewrite (countOf_same_counts a0 a2 _ Hc); exact H0).
    destruct (Z.ltb 10 c) eqn:Hlt; destruct cancelled; cbn beta iota zeta.
    + (* throttled and cancelled *)
      split; [exact H0|]. split.
      * intros [H|H]; [discriminate|]. apply Z.ltb_lt in Hlt. lia.
      * intros _. split; reflexivity.
    + destruct st2; (split; [exact H2|]; split;
        [intros _; eexists; split; [reflexivity|]; reflexivity
        |intros [H _]; discriminate]).
    + destruct st2; (split; [exact H2|]; split;
        [intros _; eexists; split; [reflexivity|]; reflexivity
        |intros [_ H]; apply Z.ltb_ge in Hlt; lia]).
    + destruct st2; (split; [exact H2|]; split;
        [intros _; eexists; split; [reflexivity|]; reflexivity
        |intros [_ H]; apply Z.ltb_ge in Hlt; lia]).
Qed.

Lemma consecutive_event_count_throttle_witness :
  let ev := mkAgentEvent "relay" 20 20 "hi" "Berni" "e1" in
  let a := mkAgent ∅ {[20 := 10]} in
  exists rest, (handleEvent o_plain a ev 0 [] false).1.2 =
               [EffLog "handle_event"; EffSleep30] ++ rest.
Proof.
  intros ev a.
  destruct consecutive_event_count_throttle as [_ H].
  specialize (H o_plain a ev 0 [] false). simpl in H.
  destruct (handleEvent o_plain a ev 0 [] false) as [[a' tr] st].
  destruct H as (_ & H & _). destruct (H (or_introl eq_refl)) as (rest & Htr & _).
  exists rest. exact Htr.
Defined.

(* ------------------------------------------------------------------ *)
(** *** Persistent bus (C2, C4, C5) *)


(** C2 fails: a second [MarkProcessed] at a later [NOW()] re-stamps
    [processed_at], so the state differs from the one after the first
    call and [processed_at] is written twice. *)
Lemma MarkProcessed_restamps :
  MarkProcessed (MarkProcessed bus_e1 "e1" 1) "e1" 2 <> MarkProcessed bus_e1 "e1" 1 /\
  map r_processed_at (rows (store (MarkProcessed bus_e1 "e1" 1))) = [Some 1] /\
  map r_processed_at (rows (store (MarkProcessed (MarkProcessed bus_e1 "e1" 1) "e1" 2)))
    = [Some 2].
Proof.
  split; [|split; reflexivity].
  vm_compute. intros H. injection H. discriminate.
Qed.


Lemma markRow_markRow eid t1 t2 r :
  markRow eid t2 (markRow eid t1 r) = markRow eid t2 r.
Proof.
  unfold markRow. destruct (String.eqb (r_event_id r) eid) eqn:E; simpl;
    rewrite ?E; reflexivity.
Qed.

(** C2 (amended): calling [MarkProcessed] twice equals calling it once
    at the time of the second call: the second call overwrites
    [processed_at] with its own [NOW()]; every other column, the
    processed (non-null) status of every row, and the in-memory bus are
    the same as after the first call.  With the same [NOW()] the two
    states are equal. *)
Theorem MarkProcessed_twice b eid t1 t2 :
  let b1 := MarkProcessed b eid t1 in
  let b2 := MarkProcessed b1 eid t2 in
  b2 = MarkProcessed b eid t2 /\
  map rowKey (rows (store b2)) = map rowKey (rows (store b1)) /\
  map unprocessed (rows (store b2)) = map unprocessed (rows (store b1)) /\
  mem b2 = mem b1 /\
  (t1 = t2 -> b2 = b1).
Proof.
  intros b1 b2. unfold b2, b1, MarkProcessed; simpl.
  rewrite map_map. setoid_rewrite markRow_markRow.
  split; [reflexivity|]. rewrite !map_map.
  split; [|split; [|split; [reflexivity|]]].
  - apply map_ext. intros r. unfold markRow, rowKey.
    destruct (String.eqb (r_event_id r) eid); reflexivity.
  - apply map_ext. intros r. unfold markRow, unprocessed.
    destruct (String.eqb (r_event_id r) eid); reflexivity.
  - intros ->. reflexivity.
Qed.


Lemma insertByCreated_perm r l : Permutation (insertByCreated r l) (r :: l).
Proof.
  induction l as [|r' l IH]; simpl; [done|].
  destruct (Z.leb (r_created_at r') (r_created_at r)); [|done].
  rewrite IH. apply perm_swap.
Qed.

Lemma sortByCreated_perm l : Permutation (sortByCreated l) l.
Proof.
  induction l as [|r l IH]; simpl; [done|].
  rewrite insertByCreated_perm, IH. done.
Qed.

Lemma insertByCreated_hd a r l :
  HdRel createdLe a l -> createdLe a r -> HdRel createdLe a (insertByCreated r l).
Proof.
  intros Hh Har. destruct l as [|b l]; simpl; [by constructor|].
  destruct (Z.leb (r_created_at b) (r_created_at r)); constructor; [|done].
  by inversion Hh.
Qed.

Lemma insertByCreated_sorted r l :
  Sorted createdLe l -> Sorted createdLe (insertByCreated r l).
Proof.
  induction l as [|b l IH]; simpl; intros Hs; [repeat constructor|].
  destruct (Z.leb (r_created_at b) (r_created_at r)) eqn:E.
  - apply Sorted_inv in Hs as [Hs Hh]. constructor; [by apply IH|].
    apply insertByCreated_hd; [done|]. apply Z.leb_le in E. exact E.
  - constructor; [done|]. constructor. apply Z.leb_gt in E. unfold createdLe. lia.
Qed.

Lemma sortByCreated_sorted l : Sorted createdLe (sortByCreated l).
Proof.
  induction l as [|r l IH]; simpl; [constructor|]. by apply insertByCreated_sorted.
Qed.

Lemma selectUnprocessed_spec s r :
  In r (selectUnprocessed s) <-> In r (rows s) /\ r_processed_at r = None.
Proof.
  unfold selectUnprocessed. split.
  - intros H. apply (Permutation_in _ (sortByCreated_perm _)) in H.
    apply filter_In in H as [H1 H2]. split; [done|].
    unfold unprocessed in H2. by destruct (r_processed_at r).
  - intros [H1 H2]. apply (Permutation_in _ (Permutation_sym (sortByCreated_perm _))).
    apply filter_In. split; [done|]. unfold unprocessed. by rewrite H2.
Qed.


Lemma processed_in_mark_same b eid now :
  (exists r, In r (rows (store b)) /\ r_event_id r = eid) ->
  processed_in (store (MarkProcessed b eid now)) eid.
Proof.
  intros [r [Hr He]]. simpl. split.
  - exists (markRow eid now r). split; [by apply in_map|].
    unfold markRow. destruct (String.eqb (r_event_id r) eid); done.
  - intros r' Hr' He'. apply in_map_iff in Hr' as (r0 & <- & _).
    unfold markRow in *. destruct (String.eqb (r_event_id r0) eid) eqn:E; simpl; [done|].
    simpl in He'. apply String.eqb_neq in E. congruence.
Qed.

Lemma processed_in_publish b ev now ok eid :
  processed_in (store b) eid -> processed_in (store (busPublish b ev now ok).1) eid.
Proof.
  intros [[r [Hr He]] Hall]. unfold busPublish.
  destruct ok; simpl; [|split; eauto].
  unfold insertEvent.
  destruct (existsb _ (rows (store b))) eqn:Ex; [split; eauto|].
  destruct (String.eqb (ev_EventID ev) eid) eqn:Eq.
  - apply String.eqb_eq in Eq. exfalso.
    assert (existsb (fun r0 => String.eqb (r_event_id r0) (ev_EventID ev)) (rows (store b)) = true)
      as Ht.
    { apply existsb_exists. exists r. split; [done|]. apply String.eqb_eq. congruence. }
    congruence.
  - apply String.eqb_neq in Eq. simpl. split.
    + exists r. split; [apply in_or_app; by left|done].
    + intros r' Hr' He'. apply in_app_or in Hr' as [Hr'|[<-|[]]]; [by apply Hall|].
      simpl in He'. congruence.
Qed.

Lemma processed_in_mark b eid' now eid :
  processed_in (store b) eid -> processed_in (store (MarkProcessed b eid' now)) eid.
Proof.
  intros [[r [Hr He]] Hall]. simpl. split.
  - exists (markRow eid' now r). split; [by apply in_map|].
    unfold markRow. destruct (String.eqb (r_event_id r) eid'); done.
  - intros r' Hr' He'. apply in_map_iff in Hr' as (r0 & <- & Hr0).
    unfold markRow in *. destruct (String.eqb (r_event_id r0) eid'); simpl in *; [done|].
    by apply Hall.
Qed.

Lemma replay_skips_processed b ok eid :
  processed_in (store b) eid ->
  forall e, In e (ReplayUnprocessed b ok).1.2 -> ev_EventID e <> eid.
Proof.
  intros [_ Hall] e He. unfold ReplayUnprocessed in He.
  destruct ok; simpl in He; [|done].
  apply in_map_iff in He as (r & <- & Hr). apply selectUnprocessed_spec in Hr as [Hr Hn].
  simpl. intros Heq. by apply (Hall r).
Qed.

Lemma busRun_skips_processed ops b eid :
  processed_in (store b) eid -> forall e, In e (busRun b ops).2 -> ev_EventID e <> eid.
Proof.
  revert b. induction ops as [|op ops IH]; intros b Hp e He; simpl in He; [done|].
  destruct op as [ev now ok|eid' now|ok].
  - eapply IH; [|exact He]. by apply processed_in_publish.
  - eapply IH; [|exact He]. by apply processed_in_mark.
  - pose proof (replay_skips_processed b ok eid Hp) as Hr.
    destruct (ReplayUnprocessed b ok) as [[b' evs] err] eqn:E.
    assert (Hs : store b' = store b).
    { unfold ReplayUnprocessed in E. destruct ok; injection E; intros; subst; done. }
    destruct (busRun b' ops) as [b'' evs'] eqn:E2. simpl in He.
    apply in_app_or in He as [He|He].
    + apply Hr. simpl. exact He.
    + assert (Hp' : processed_in (store b') eid) by (rewrite Hs; exact Hp).
      pose proof (IH b' Hp' e) as IH'. rewrite E2 in IH'. by apply IH'.
Qed.

(** C4: [ReplayUnprocessed] never writes the store; on a successful query
    it hands to the in-memory bus's [Publish], in order, the events of
    exactly the rows whose [processed_at] is null (a permutation of them,
    sorted by [created_at]); and once [MarkProcessed(eid)] has updated
    the event's row, no replay in any later sequence of publishes, marks
    and replays re-delivers an event with that [event_id]. *)
Theorem ReplayUnprocessed_spec :
  (forall b ok,
     let '(b', evs, err) := ReplayUnprocessed b ok in
     store b' = store b /\
     (ok = true -> err = None /\ evs = map rowEvent (selectUnprocessed (store b)) /\
                   mem b' = foldl memPublish (mem b) evs) /\
     (ok = false -> evs = [] /\ b' = b)) /\
  (forall s,
     Sorted createdLe (selectUnprocessed s) /\
     Permutation (selectUnprocessed s) (List.filter unprocessed (rows s)) /\
     (forall r, In r (selectUnprocessed s) <-> In r (rows s) /\ r_processed_at r = None)) /\
  (forall b eid now ops,
     (exists r, In r (rows (store b)) /\ r_event_id r = eid) ->
     forall e, In e (busRun (MarkProcessed b eid now) ops).2 -> ev_EventID e <> eid).
Proof.
  split; [|split].
  - intros b ok. unfold ReplayUnprocessed. destruct ok; simpl.
    + split; [done|]. split; [|discriminate]. intros _. done.
    + split; [done|]. split; [discriminate|]. intros _. done.
  - intros s. split; [apply sortByCreated_sorted|]. split.
    + apply sortByCreated_perm.
    + apply selectUnprocessed_spec.
  - intros b eid now ops Hex. apply busRun_skips_processed.
    by apply processed_in_mark_same.
Qed.

Lemma ReplayUnprocessed_spec_witness :
  ~ In (rowEvent row_e1)
      (busRun (MarkProcessed bus_e1 "e1" 5)
              [OpPublish (rowEvent row_e1) 6 true; OpReplay true]).2.
Proof.
  destruct ReplayUnprocessed_spec as (_ & _ & H).
  intros Hin.
  refine (H bus_e1 "e1" 5 _ _ (rowEvent row_e1) Hin eq_refl).
  exists row_e1. split; [left; reflexivity|reflexivity].
Defined.

Lemma existsb_countRows s eid :
  existsb (fun r => String.eqb (r_event_id r) eid) (rows s) = true <->
  (countRows s eid > 0)%nat.
Proof.
  unfold countRows. induction (rows s) as [|r l IH]; simpl; [split; [done|lia]|].
  destruct (String.eqb (r_event_id r) eid); simpl; [split; [lia|done]|]. exact IH.
Qed.

Lemma insertEvent_count s ev now :
  countRows (insertEvent s ev now) (ev_EventID ev) =
  if decide (countRows s (ev_EventID ev) = 0%nat) then 1%nat else countRows s (ev_EventID ev).
Proof.
  unfold insertEvent.
  destruct (existsb _ (rows s)) eqn:E.
  - apply existsb_countRows in E. destruct (decide _); [lia|done].
  - assert (Hz : countRows s (ev_EventID ev) = 0%nat).
    { destruct (countRows s (ev_EventID ev)) eqn:C; [done|].
      exfalso. assert (existsb (fun r => String.eqb (r_event_id r) (ev_EventID ev)) (rows s) = true)
        by (apply existsb_countRows; lia). congruence. }
    rewrite decide_True by done. unfold countRows in *. simpl.
    rewrite List.filter_app, length_app, Hz. simpl. rewrite String.eqb_refl. done.
Qed.

Lemma insertEvent_existing s ev now :
  (countRows s (ev_EventID ev) > 0)%nat -> insertEvent s ev now = s.
Proof.
  intros H. unfold insertEvent. apply existsb_countRows in H. by rewrite H.
Qed.

(** C5: [Publish] forwards the event to the in-memory bus whatever the
    outcome of the INSERT, logging an INSERT error; publishing the same
    event twice never creates a second row (at most one row once the
    event's row is unique), leaves an existing row untouched, and leaves
    exactly one row as soon as one of the two INSERTs succeeds. *)
Theorem busPublish_twice b ev n1 n2 ok1 ok2 :
  let eid := ev_EventID ev in
  let '(b1, tr1) := busPublish b ev n1 ok1 in
  let '(b2, tr2) := busPublish b1 ev n2 ok2 in
  mem b1 = memPublish (mem b) ev /\
  mem b2 = memPublish (memPublish (mem b) ev) ev /\
  tr1 = (if ok1 then [] else [EffLog "agent/bus: persist event"]) /\
  ((countRows (store b) eid <= 1)%nat -> (countRows (store b2) eid <= 1)%nat) /\
  ((countRows (store b) eid > 0)%nat -> store b2 = store b) /\
  (ok1 || ok2 = true -> countRows (store b) eid = 0%nat -> countRows (store b2) eid = 1%nat).
Proof.
  intros eid. unfold busPublish.
  assert (Hins0 : forall s n, countRows s eid = 0%nat -> countRows (insertEvent s ev n) eid = 1%nat)
    by (intros s n H; unfold eid in *; rewrite insertEvent_count, decide_True; done).
  assert (Hins1 : forall s n, (countRows s eid > 0)%nat -> insertEvent s ev n = s)
    by (intros s n H; by apply insertEvent_existing).
  destruct ok1, ok2; simpl; (split; [done|]); (split; [done|]); (split; [done|]);
    (destruct (decide (countRows (store b) eid = 0%nat)) as [Hz|Hnz]).
  - rewrite (Hins1 (insertEvent (store b) ev n1)) by (rewrite Hins0; [lia|done]).
    rewrite Hins0 by done. split; [lia|]. split; [intros; exfalso; lia|]. done.
  - rewrite (Hins1 (store b)), (Hins1 (store b)) by lia. split; [done|]. split; [done|]. intros; exfalso; lia.
  - rewrite Hins0 by done. split; [lia|]. split; [intros; exfalso; lia|]. done.
  - rewrite Hins1 by lia. split; [done|]. split; [done|]. intros; exfalso; lia.
  - rewrite Hins0 by done. split; [lia|]. split; [intros; exfalso; lia|]. done.
  - rewrite Hins1 by lia. split; [done|]. split; [done|]. intros; exfalso; lia.
  - split; [done|]. split; [intros; exfalso; lia|]. discriminate.
  - split; [done|]. split; [done|]. discriminate.
Qed.

Lemma busPublish_twice_witness :
  let b0 := mkPersistentBus (mkEventStore [] 1) [] in
  let ev := rowEvent row_e1 in
  countRows (store (busPublish (busPublish b0 ev 1 false).1 ev 2 true).1) "e1" = 1%nat.
Proof.
  intros b0 ev.
  pose proof (busPublish_twice b0 ev 1 2 false true) as H.
  cbv zeta in H.
  destruct (busPublish b0 ev 1 false) as [b1 tr1]. cbn [fst].
  destruct (busPublish b1 ev 2 true) as [b2 tr2]. cbn [fst].
  destruct H as (_ & _ & _ & _ & _ & H).
  apply H; reflexivity.
Defined.

(* ------------------------------------------------------------------ *)
(** *** Reminder producer (C7) *)


Lemma insertByFireAt_perm r l : Permutation (insertByFireAt r l) (r :: l).
Proof.
  induction l as [|r' l IH]; simpl; [done|].
  destruct (Z.leb (fire_at r') (fire_at r)); [|done].
  rewrite IH. apply perm_swap.
Qed.

Lemma sortByFireAt_perm l : Permutation (sortByFireAt l) l.
Proof.
  induction l as [|r l IH]; simpl; [done|]. by rewrite insertByFireAt_perm, IH.
Qed.

Lemma insertByFireAt_sorted r l : Sorted fireLe l -> Sorted fireLe (insertByFireAt r l).
Proof.
  induction l as [|b l IH]; simpl; intros Hs; [repeat constructor|].
  destruct (Z.leb (fire_at b) (fire_at r)) eqn:E.
  - apply Sorted_inv in Hs as [Hs Hh]. constructor; [by apply IH|].
    destruct l as [|c l]; simpl; [constructor; apply Z.leb_le in E; exact E|].
    destruct (Z.leb (fire_at c) (fire_at r)); constructor;
      [by inversion Hh | apply Z.leb_le in E; exact E].
  - constructor; [done|]. constructor. apply Z.leb_gt in E. unfold fireLe. lia.
Qed.

Lemma sortByFireAt_sorted l : Sorted fireLe (sortByFireAt l).
Proof. induction l; simpl; [constructor|]. by apply insertByFireAt_sorted. Qed.


Lemma publishDue_spec rs due uuid k upd :
  let '(rs', tr, k') := publishDue rs due uuid k upd in
  rs' = map (firedRow upd due) rs /\
  publishedEvents tr = zip_with reminderEvent due (map uuid (seq k (length due))) /\
  k' = (k + length due)%nat.
Proof.
  revert rs k. induction due as [|d due IH]; intros rs k; simpl.
  - split; [|split; [done|lia]]. rewrite <- (map_id rs) at 1. apply map_ext.
    intros r. done.
  - set (rs1 := match upd (rem_id d) with
                | Some t => map (setFired (rem_id d) t) rs | None => rs end).
    assert (Hrs1 : forall x, match upd (rem_id d) with
                 | Some t => (map (setFired (rem_id d) t) rs, [])
                 | None => (rs, [EffLog "reminder mark fired"]) end = (rs1, x) ->
                 publishedEvents x = []).
    { intros x. unfold rs1. destruct (upd (rem_id d)); intros H; injection H as <-; done. }
    destruct (match upd (rem_id d) with
              | Some t => (map (setFired (rem_id d) t) rs, [])
              | None => (rs, [EffLog "reminder mark fired"]) end) as [rsA trA] eqn:EA.
    assert (HrsA : rsA = rs1) by (unfold rs1; destruct (upd (rem_id d)); injection EA; done).
    subst rsA.
    specialize (IH rs1 (S k)).
    destruct (publishDue rs1 due uuid (S k) upd) as [[rs2 tr2] k2].
    destruct IH as (IH1 & IH2 & IH3).
    split; [|split].
    + rewrite IH1. unfold rs1. destruct (upd (rem_id d)) as [t|] eqn:Eu.
      * rewrite map_map. apply map_ext. intros r. unfold firedRow, setFired. simpl.
        destruct (Z.eqb (rem_id r) (rem_id d)) eqn:E1.
        -- apply Z.eqb_eq in E1. rewrite E1, Z.eqb_refl. simpl. rewrite Eu, Z.eqb_refl.
           destruct (existsb _ due); simpl; rewrite ?Eu, ?Z.eqb_refl; done.
        -- rewrite (Z.eqb_sym (rem_id d) (rem_id r)), E1. simpl. done.
      * apply map_ext. intros r. unfold firedRow. simpl.
        destruct (Z.eqb (rem_id d) (rem_id r)) eqn:E1; simpl;
          [apply Z.eqb_eq in E1; rewrite <- E1, Eu; by destruct (existsb _ due)|done].
    + pose proof (Hrs1 trA eq_refl) as HtrA. unfold publishedEvents in *. simpl.
      rewrite omap_app, HtrA, IH2. done.
    + lia.
Qed.

Lemma selectDue_spec rs now r :
  In r (selectDue rs now) <-> In r rs /\ fire_at r <= now /\ rem_fired_at r = None.
Proof.
  unfold selectDue. split.
  - intros Hin. apply (Permutation_in _ (sortByFireAt_perm _)) in Hin.
    apply filter_In in Hin as [Hin Hd]. unfold isDue in Hd.
    apply andb_true_iff in Hd as [Hle Hf]. apply Z.leb_le in Hle.
    destruct (rem_fired_at r); [discriminate|]. done.
  - intros (Hin & Hle & Hf). apply (Permutation_in _ (Permutation_sym (sortByFireAt_perm _))).
    apply filter_In. split; [done|]. unfold isDue. rewrite Hf, andb_true_r.
    by apply Z.leb_le.
Qed.

(** C7: a tick of the reminder producer whose query succeeds reads the
    due rows (those of the table with [fire_at <= now] and [fired_at]
    null) ordered by [fire_at]; for each of them, in that order, it
    publishes exactly one event [reminderEvent r id] (kind reminder,
    target and chat the row's chat id, content its message, source
    "reminder"), where the ids are the successive draws [k], [k+1], ... of
    [generateUUID] and the next tick draws from [k + length due] on; and
    every due row whose UPDATE succeeds at time [t] ends with
    [fired_at = Some t], every other row being left as it was. *)
Theorem fireReminders_tick rs now uuid k upd :
  let due := selectDue rs now in
  let '(rs', tr, k') := fireReminders rs now true uuid k upd in
  (forall r, In r due <-> In r rs /\ fire_at r <= now /\ rem_fired_at r = None) /\
  Sorted fireLe due /\
  publishedEvents tr = zip_with reminderEvent due (map uuid (seq k (length due))) /\
  k' = (k + length due)%nat /\
  rs' = map (firedRow upd due) rs.
Proof.
  cbn zeta. unfold fireReminders.
  pose proof (publishDue_spec rs (selectDue rs now) uuid k upd) as H.
  destruct (publishDue rs (selectDue rs now) uuid k upd) as [[rs' tr] k'].
  destruct H as (H1 & H2 & H3).
  split; [apply selectDue_spec|]. split; [apply sortByFireAt_sorted|]. done.
Qed.

(* ------------------------------------------------------------------ *)
(** *** Session recorder chain (C8) *)

Lemma newID_length b : String.length (newID b) = 8%nat.
Proof. destruct b as [[[b0 b1] b2] b3]. reflexivity. Qed.

Lemma linkedFrom_linked p es : linkedFrom p es -> linked es.
Proof.
  revert p. induction es as [|e es IH]; intros p; [done|].
  destruct es as [|e2 es]; [done|]. simpl. intros [_ [H2 H3]].
  split; [done|]. apply (IH (se_ID e)). simpl. done.
Qed.

Lemma recordAll_spec rnd r file msgs :
  exists added, fst (recordAll rnd r file msgs) = file ++ added /\
    linkedFrom (lastID r) added /\
    Forall (fun e => se_Type e = "message") added /\
    Forall (fun e => String.length (se_ID e) = 8%nat) added.
Proof.
  revert r file. induction msgs as [|[m ok] msgs IH]; intros r file; simpl.
  - exists []. rewrite app_nil_r. done.
  - unfold Record_. destruct ok.
    + match goal with
      | |- exists _, fst (recordAll _ ?r' ?f' _) = _ /\ _ =>
          destruct (IH r' f') as (added & H1 & H2 & H3 & H4)
      end.
      exists (messageEvent m (lastID r) (newID (rnd (draw r))) :: added).
      rewrite H1, <- app_assoc. split; [done|]. simpl in H2.
      split; [done|]. split; constructor; try done. apply newID_length.
    + destruct (IH (mkRecorder (userID r) (lastID r) (S (draw r))) file)
        as (added & H1 & H2 & H3 & H4).
      exists added. done.
Qed.

(** C8 (counterexample): reopening a session file that already holds a
    session record and a message writes no new root and leaves [lastID]
    empty, so the next message record has an empty [parent_id] instead of
    its predecessor's id, and the file is no longer a single chain. *)
Lemma Record_after_reopen :
  newRecorder rnd_seq file_reopened 7 0 true = Some (file_reopened, mkRecorder 7 "" 0) /\
  fst (Record_ rnd_seq (mkRecorder 7 "" 0) file_reopened (userText "di nuovo") true)
    = file_reopened ++ [messageEvent (userText "di nuovo") "" "0c0c0c0c"] /\
  ~ linked (file_reopened ++ [messageEvent (userText "di nuovo") "" "0c0c0c0c"]).
Proof.
  split; [reflexivity|]. split; [reflexivity|].
  simpl. intros (_ & H & _). discriminate H.
Qed.

(** C8 (what the recorder guarantees): for a recorder opened on a file
    holding [file0] and then given any messages (each written or failing),
    the file ends as [file0] followed by the records it wrote; every one
    has an 8-hex-digit id and each names the previous one written as its
    parent.  On an empty file the first of them is the session init record
    (the root, with no parent) and the others are messages; on a non-empty
    file no init record is written and the first message written has an
    empty parent. *)
Theorem Recorder_chain rnd file0 uid k ok0 msgs file1 r1 :
  newRecorder rnd file0 uid k ok0 = Some (file1, r1) ->
  exists added, fst (recordAll rnd r1 file1 msgs) = file0 ++ added /\
    linked added /\
    Forall (fun e => String.length (se_ID e) = 8%nat) added /\
    (file0 = [] -> exists init rest, added = init :: rest /\
       se_Type init = "session" /\ se_ParentID init = "" /\
       Forall (fun e => se_Type e = "message") rest) /\
    (file0 <> [] -> Forall (fun e => se_Type e = "message") added /\
       linkedFrom "" added).
Proof.
  intros Hnew. unfold newRecorder in Hnew.
  destruct (recordAll_spec rnd r1 file1 msgs) as (added & H1 & H2 & H3 & H4).
  destruct file0 as [|e0 file0'].
  - destruct ok0; [|discriminate]. injection Hnew as <- <-.
    exists (sessionInitEvent uid (newID (rnd k)) :: added). rewrite H1.
    split; [done|]. split; [apply (linkedFrom_linked ""); simpl; done|].
    split; [constructor; [apply newID_length|done]|].
    split; [|done]. intros _. eexists _, _. done.
  - injection Hnew as <- <-. exists added. rewrite H1.
    split; [done|]. split; [by apply (linkedFrom_linked "")|].
    split; [done|]. split; [discriminate|]. done.
Qed.

Lemma Recorder_chain_witness :
  newRecorder rnd_seq [] 7 0 true = Some ([sessionInitEvent 7 "0c0c0c0c"], mkRecorder 7 "0c0c0c0c" 1) /\
  exists added, fst (recordAll rnd_seq (mkRecorder 7 "0c0c0c0c" 1)
                   [sessionInitEvent 7 "0c0c0c0c"] [(userText "ciao", true)]) = [] ++ added /\
    linked added /\
    Forall (fun e => String.length (se_ID e) = 8%nat) added /\
    ([] = @nil Event -> exists init rest, added = init :: rest /\
       se_Type init = "session" /\ se_ParentID init = "" /\
       Forall (fun e => se_Type e = "message") rest) /\
    ([] <> @nil Event -> Forall (fun e => se_Type e = "message") added /\
       linkedFrom "" added).
Proof.
  split; [reflexivity|].
  apply (Recorder_chain rnd_seq [] 7 0 true). reflexivity.
Defined.

(* ------------------------------------------------------------------ *)
(** *** send_user_message never reaches its sender (C9) *)

Lemma recipientsOf_not_self uid rows : Forall (fun r => r.1 <> uid) (recipientsOf uid rows).
Proof.
  apply List.Forall_forall. intros r Hin. unfold recipientsOf in Hin.
  apply filter_In in Hin as [_ H]. apply negb_true_iff, Z.eqb_neq in H. done.
Qed.

Lemma sendLoop_not_self users tctx hasInjector hasBus sendOk uuid msg rs :
  Forall (fun r => r.1 <> tctx_UserID tctx) rs ->
  forall j k e,
  In e (sendLoop users tctx hasInjector hasBus sendOk uuid msg j k rs).1.1.1 ->
  ~ reachesUser (tctx_UserID tctx) e.
Proof.
  induction rs as [|[tid nm] rs IH]; intros Hall j k e; simpl; [done|].
  apply Forall_cons in Hall as [Htid Hall]. simpl in Htid.
  destruct (sendOk j).
  - destruct (String.eqb (lookupRole users tid) "manager" && hasBus).
    + destruct (sendLoop users tctx hasInjector hasBus sendOk uuid msg (S j) (S k) rs)
        as [[[effs names] failed] k2] eqn:E.
      simpl. intros [<-|Hin]; [simpl; done|].
      apply in_app_or in Hin as [Hin|Hin].
      { destruct hasInjector; [|done]. destruct Hin as [<-|[]]. simpl. done. }
      destruct Hin as [<-|Hin]; [simpl; intros [|]; done|].
      eapply IH; [done|]. rewrite E. exact Hin.
    + destruct (sendLoop users tctx hasInjector hasBus sendOk uuid msg (S j) k rs)
        as [[[effs names] failed] k2] eqn:E.
      simpl. intros [<-|Hin]; [simpl; done|].
      apply in_app_or in Hin as [Hin|Hin].
      { destruct hasInjector; [|done]. destruct Hin as [<-|[]]. simpl. done. }
      eapply IH; [done|]. rewrite E. exact Hin.
  - destruct (sendLoop users tctx hasInjector hasBus sendOk uuid msg (S j) k rs)
      as [[[effs names] failed] k2] eqn:E.
    simpl. intros [<-|Hin]; [simpl; done|].
    eapply IH; [done| rewrite E; exact Hin].
Qed.

(** C9: whatever the destination ([all], a role or a name), the
    recipients [send_user_message] resolves exclude the invoking user
    ([ctx.UserID]), and no effect of one invocation reaches that user: no
    [tg.Send] to their chat, no injection into their context, no relay
    event targeted at them. *)
Theorem sendUserMessage_not_self users tctx hasInjector hasBus sendOk uuid inTo inMsg
    queryOk k :
  Forall (fun r => r.1 <> tctx_UserID tctx)
    (recipientsOf (tctx_UserID tctx)
       (queryRecipients users (ToLower (TrimSpace inTo)) inTo)) /\
  forall e,
  In e (sendUserMessage users tctx hasInjector hasBus sendOk uuid inTo inMsg queryOk k).1.2 ->
  ~ reachesUser (tctx_UserID tctx) e.
Proof.
  split; [apply recipientsOf_not_self|]. intros e.
  unfold sendUserMessage.
  destruct (String.eqb inTo "" || String.eqb inMsg ""); [simpl; done|].
  destruct (negb queryOk); [simpl; done|].
  pose proof (recipientsOf_not_self (tctx_UserID tctx)
                (queryRecipients users (ToLower (TrimSpace inTo)) inTo)) as Hall.
  destruct (recipientsOf (tctx_UserID tctx)
              (queryRecipients users (ToLower (TrimSpace inTo)) inTo)) as [|r rs];
    [simpl; done|].
  destruct (sendLoop users tctx hasInjector hasBus sendOk uuid inMsg 0 k (r :: rs))
    as [[[effs names] failed] k'] eqn:E.
  simpl. intros Hin. eapply sendLoop_not_self; [exact Hall|]. rewrite E. exact Hin.
Qed.

(* ================================================================== *)
(** * Properties of further code *)

(* ------------------------------------------------------------------ *)
(** *** Tool registry *)

(** A tool registered under [n] is the one [Execute] runs for [n]: its
    handler's error becomes an error result, its output a successful
    result. *)
Theorem Register_Execute tools n d h args ctx :
  Execute (Register (Some tools) n d h) n args ctx =
  match h ctx args with
  | (_, Some err) => mkToolResult "" err true
  | (res, None) => mkToolResult "" res false
  end.
Proof.
  unfold Execute, Register. rewrite lookup_insert_eq. cbn.
  destruct (h ctx args) as [res [err|]]; reflexivity.
Qed.

(** Registering [n] changes nothing for another name [m], on a nil
    registry as on a live one. *)
Theorem Register_Execute_other r n d h m args ctx :
  m <> n -> Execute (Register r n d h) m args ctx = Execute r m args ctx.
Proof.
  intros Hne. destruct r as [tools|]; [|done]. simpl.
  rewrite lookup_insert_ne; [done|congruence].
Qed.

Lemma Register_Execute_other_witness :
  "b" <> "a" /\
  Execute (Register (Some ∅) "a" "d" (fun _ _ => ("x", None))) "b" "{}" (mkToolContext 1 1 0 "")
  = Execute (Some ∅) "b" "{}" (mkToolContext 1 1 0 "").
Proof.
  split; [discriminate|].
  apply Register_Execute_other. discriminate.
Defined.

Lemma registerAll_snoc r regs x :
  registerAll r (regs ++ [x]) = Register (registerAll r regs) x.1.1 x.1.2 x.2.
Proof. unfold registerAll. by rewrite fold_left_app. Qed.

Lemma registerAll_lookup regs :
  exists tools, registerAll (Some ∅) regs = Some tools /\
  forall n t, tools !! n = Some t <->
    exists h regs1 regs2, regs = regs1 ++ (n, rt_description t, h) :: regs2 /\
      ~ In n (map (fun x => x.1.1) regs2) /\ t = mkRegisteredTool n (rt_description t) (Some h).
Proof.
  induction regs as [|x regs IH] using rev_ind.
  - exists ∅. split; [done|]. intros n t. rewrite lookup_empty. split; [done|].
    intros (h & regs1 & regs2 & E & _). destruct regs1; discriminate.
  - destruct IH as (tools & E & Hl). rewrite registerAll_snoc, E.
    destruct x as [[n' d'] h']. simpl.
    eexists. split; [done|]. intros n t.
    destruct (decide (n = n')) as [->|Hne].
    + rewrite lookup_insert_eq. split.
      * intros [= <-]. exists h', regs, []. simpl. repeat split; auto.
      * intros (h & regs1 & regs2 & Eq & Hnin & Et).
        destruct regs2 as [|y regs2] using rev_ind.
        -- apply app_inj_tail in Eq as [_ Eq]. injection Eq as -> ->. simpl in Et.
           rewrite Et. done.
        -- rewrite (app_comm_cons regs2 [y]), app_assoc in Eq. apply app_inj_tail in Eq as [_ <-].
           exfalso. apply Hnin. rewrite map_app. apply in_or_app. right. simpl. auto.
    + rewrite lookup_insert_ne by congruence. rewrite Hl. split.
      * intros (h & regs1 & regs2 & -> & Hnin & Et).
        exists h, regs1, (regs2 ++ [(n', d', h')]). rewrite <- app_assoc. split; [done|].
        split; [|done]. rewrite map_app. simpl. intros Hin.
        apply in_app_or in Hin as [Hin|[Hin|[]]]; [done|congruence].
      * intros (h & regs1 & regs2 & Eq & Hnin & Et).
        destruct regs2 as [|y regs2] using rev_ind.
        -- apply app_inj_tail in Eq as [_ Eq]. injection Eq as -> _ _. congruence.
        -- rewrite (app_comm_cons regs2 [y]), app_assoc in Eq. apply app_inj_tail in Eq as [Eq <-].
           exists h, regs1, regs2. rewrite Eq. split; [done|]. split; [|done].
           intros Hin. apply Hnin. rewrite map_app. apply in_or_app. by left.
Qed.

(** After registering a sequence of tools on a new registry,
    [Definitions] lists every registered name exactly once, with the
    description of that name's last registration: registering a name again
    replaces its definition. *)
Theorem Definitions_registerAll regs :
  NoDup (map fst (Definitions (registerAll (Some ∅) regs))) /\
  forall n d, In (n, d) (Definitions (registerAll (Some ∅) regs)) <->
    exists h regs1 regs2, regs = regs1 ++ (n, d, h) :: regs2 /\
      ~ In n (map (fun x => x.1.1) regs2).
Proof.
  destruct (registerAll_lookup regs) as (tools & -> & Hl). simpl.
  assert (Hname : forall p, In p (map_to_list tools) -> rt_name p.2 = p.1).
  { intros [k t] Hin. apply list_elem_of_In, elem_of_map_to_list in Hin.
    apply Hl in Hin as (h & _ & _ & _ & _ & ->). done. }
  split.
  - rewrite map_map. simpl.
    rewrite (map_ext_in _ fst _ Hname). apply NoDup_fst_map_to_list.
  - intros n d. rewrite in_map_iff. split.
    + intros ([k t] & [= <- <-] & Hin). pose proof (Hname _ Hin) as Hk. simpl in Hk. subst k.
      apply list_elem_of_In, elem_of_map_to_list, Hl in Hin as (h & regs1 & regs2 & E & Hnin & _).
      exists h, regs1, regs2. done.
    + intros (h & regs1 & regs2 & E & Hnin).
      exists (n, mkRegisteredTool n d (Some h)). split; [done|].
      apply list_elem_of_In, elem_of_map_to_list, Hl. exists h, regs1, regs2. done.
Qed.

(* ------------------------------------------------------------------ *)
(** *** Context manager window *)

Lemma TransformContext_spec c msgs :
  0 < MaxMessages c ->
  (exists pre, msgs = pre ++ TransformContext c msgs) /\
  Z.of_nat (length (TransformContext c msgs)) =
    Z.min (Z.of_nat (length msgs)) (MaxMessages c).
Proof.
  intros Hpos. unfold TransformContext.
  destruct (Z.leb (Z.of_nat (length msgs)) (MaxMessages c)) eqn:E.
  - apply Z.leb_le in E. split; [exists []; done|]. lia.
  - apply Z.leb_gt in E. split.
    + exists (take (length msgs - Z.to_nat (MaxMessages c)) msgs).
      by rewrite take_drop.
    + rewrite length_drop. lia.
Qed.

(** With a positive limit (as [NewContextManager] always sets: 40 for a
    non-positive argument), the messages [Prepare] hands to the provider
    after an [Append] are the last [min(len, MaxMessages)] messages of the
    history, and they end with the message just appended. *)
Theorem Prepare_Append c m :
  0 < MaxMessages c ->
  let c' := Append c m in
  (exists pre, cm_Messages c' = pre ++ Prepare c') /\
  Z.of_nat (length (Prepare c')) =
    Z.min (Z.of_nat (length (cm_Messages c'))) (MaxMessages c) /\
  last (Prepare c') = Some m.
Proof.
  intros Hpos c'.
  destruct (TransformContext_spec c' (cm_Messages c') Hpos) as [[pre Hpre] Hlen].
  unfold Prepare. split; [by exists pre|]. split; [done|].
  assert (Hne : TransformContext c' (cm_Messages c') <> []).
  { intros E. rewrite E in Hlen. simpl in Hlen. unfold c', Append in Hlen. simpl in Hlen.
    rewrite length_app in Hlen. simpl in Hlen. lia. }
  destruct (TransformContext c' (cm_Messages c')) as [|x l] eqn:Et using rev_ind; [done|].
  clear IHl. unfold c', Append in Hpre. simpl in Hpre.
  rewrite app_assoc in Hpre. apply app_inj_tail in Hpre as [_ ->].
  by rewrite last_snoc.
Qed.

Lemma Prepare_Append_witness :
  0 < MaxMessages (NewContextManager 0) /\
  let c' := Append (NewContextManager 0) (userText "ciao") in
  (exists pre, cm_Messages c' = pre ++ Prepare c') /\
  Z.of_nat (length (Prepare c')) =
    Z.min (Z.of_nat (length (cm_Messages c'))) (MaxMessages (NewContextManager 0)) /\
  last (Prepare c') = Some (userText "ciao").
Proof.
  split; [vm_compute; reflexivity|].
  apply Prepare_Append. vm_compute. reflexivity.
Defined.

(* ------------------------------------------------------------------ *)
(** *** In-memory bus overflow *)

(** Publishing events to a bus nobody drains keeps them in publication
    order up to the capacity of 256 and drops every later one. *)
Theorem memPublishAll_spec ch evs :
  (length ch <= busCapacity)%nat ->
  memPublishAll ch evs = ch ++ take (busCapacity - length ch) evs.
Proof.
  revert ch. induction evs as [|ev evs IH]; intros ch Hle; simpl.
  - by rewrite take_nil, app_nil_r.
  - unfold memPublish. destruct (decide (length ch < busCapacity)%nat) as [Hlt|Hge].
    + rewrite IH by (rewrite length_app; simpl; lia). rewrite <- app_assoc.
      f_equal. rewrite length_app. simpl.
      replace (busCapacity - length ch)%nat with (S (busCapacity - (length ch + 1)))%nat
        by lia. done.
    + rewrite IH by lia. replace (busCapacity - length ch)%nat with 0%nat by lia.
      by rewrite !take_0.
Qed.

Lemma memPublishAll_spec_witness :
  (length (@nil AgentEvent) <= busCapacity)%nat /\
  memPublishAll [] [mkAgentEvent "relay" 1 1 "x" "s" "e"] =
    [] ++ take (busCapacity - 0) [mkAgentEvent "relay" 1 1 "x" "s" "e"].
Proof. split; [simpl; lia|]. apply memPublishAll_spec. simpl. lia. Defined.

(* ------------------------------------------------------------------ *)
(** *** Agent handlers: per-user isolation and early exits *)










(** When the throttle sleep of a bus event is cancelled, the handler
    returns after logging: no turn runs, no context changes and the event
    is not marked processed (a persistent bus replays it on restart). *)
Theorem handleEvent_cancelled o a ev now answers :
  10 <= countOf a (ev_TargetID ev) ->
  handleEvent o a ev now answers true =
    (setCount a (ev_TargetID ev) (countOf a (ev_TargetID ev) + 1),
     [EffLog "handle_event"], Finished).
Proof.
  intros Hge. unfold handleEvent. rewrite countOf_setCount.
  destruct (Z.ltb 10 (countOf a (ev_TargetID ev) + 1)) eqn:E; [done|].
  apply Z.ltb_ge in E. lia.
Qed.

Lemma handleEvent_cancelled_witness :
  10 <= countOf a_busy (ev_TargetID (rowEvent row_e1)) /\
  handleEvent o_plain a_busy (rowEvent row_e1) 0 [] true =
    (setCount a_busy (ev_TargetID (rowEvent row_e1))
       (countOf a_busy (ev_TargetID (rowEvent row_e1)) + 1),
     [EffLog "handle_event"], Finished).
Proof.
  split; [vm_compute; discriminate|].
  apply handleEvent_cancelled. vm_compute. discriminate.
Defined.

(** An update that is not handled as a [/start] command and that
    [Authorize] refuses (an error, or a non-empty refusal message) gets
    that refusal (or the apology after logging the error) as its only
    reply: no turn runs, no context changes, the user's counter is reset
    and the offset is committed. *)
Theorem handleTelegramUpdate_refused o a u now answers offsetPtr auth msg err :
  HasPrefix (u_Text u) "/start" = false ->
  Authorize o = Some auth ->
  auth (u_UserID u) (u_ChatID u) = (msg, err) ->
  (err <> None \/ msg <> "") ->
  handleTelegramUpdate o a u now answers offsetPtr =
    (setCount a (u_UserID u) 0,
     match err with
     | Some _ => [EffLog "authorize"; EffSend (u_ChatID u) sorryText]
     | None => [EffSend (u_ChatID u) msg]
     end ++ commit offsetPtr u, Finished).
Proof.
  intros Hs Ha Hauth Href. unfold handleTelegramUpdate. rewrite Hs, Ha, Hauth.
  destruct err as [e|]; [done|].
  destruct Href as [Hr|Hr]; [done|].
  apply String.eqb_neq in Hr. rewrite Hr. done.
Qed.

Lemma handleTelegramUpdate_refused_witness :
  handleTelegramUpdate o_refuse a_empty upd5 0 [] true =
    (setCount a_empty 20 0, [EffSend 10 "not allowed"] ++ commit true upd5, Finished).
Proof.
  apply (handleTelegramUpdate_refused o_refuse a_empty upd5 0 [] true
           (fun _ _ => ("not allowed", None)) "not allowed" None);
    [vm_compute; reflexivity | reflexivity | reflexivity | right; discriminate].
Defined.






Lemma hexDigit_inj (n m : nat) :
  (n < 16)%nat -> (m < 16)%nat -> hexDigit n = hexDigit m -> n = m.
Proof.
  intros Hn Hm H.
  do 16 (destruct n as [|n];
    [do 16 (destruct m as [|m];
       [first [reflexivity | vm_compute in H; discriminate H] |]); lia |]).
  lia.
Qed.

Lemma hexByte_inj (b1 b2 : Byte.byte) : hexByte b1 = hexByte b2 -> b1 = b2.
Proof.
  unfold hexByte. intros H.
  pose proof (Byte.to_nat_bounded b1) as B1. pose proof (Byte.to_nat_bounded b2) as B2.
  pose proof (Nat.div_mod_eq (Byte.to_nat b1) 16) as M1.
  pose proof (Nat.div_mod_eq (Byte.to_nat b2) 16) as M2.
  pose proof (Nat.mod_upper_bound (Byte.to_nat b1) 16 ltac:(lia)).
  pose proof (Nat.mod_upper_bound (Byte.to_nat b2) 16 ltac:(lia)).
  remember (Byte.to_nat b1 / 16)%nat as q1. remember (Byte.to_nat b2 / 16)%nat as q2.
  remember (Byte.to_nat b1 mod 16)%nat as r1. remember (Byte.to_nat b2 mod 16)%nat as r2.
  injection H as D1 D2.
  apply hexDigit_inj in D1; [| lia ..].
  apply hexDigit_inj in D2; [| lia ..].
  assert (E : Byte.to_nat b1 = Byte.to_nat b2) by lia.
  pose proof (Byte.of_to_nat b1) as O1. pose proof (Byte.of_to_nat b2) as O2.
  rewrite E, O2 in O1. congruence.
Qed.

(** [hex.EncodeToString] is injective: two byte strings with the same
    encoding are equal (so distinct draws give distinct [newID]s). *)
Theorem EncodeToString_inj (bs1 bs2 : list Byte.byte) :
  EncodeToString bs1 = EncodeToString bs2 -> bs1 = bs2.
Proof.
  revert bs2. induction bs1 as [|b1 bs1 IH]; intros [|b2 bs2] H; try reflexivity.
  - unfold EncodeToString, hexByte in H. discriminate H.
  - unfold EncodeToString, hexByte in H. discriminate H.
  - cbn [EncodeToString] in H.
    assert (Hb : hexByte b1 = hexByte b2 /\ EncodeToString bs1 = EncodeToString bs2).
    { unfold hexByte in *. remember (hexDigit (Byte.to_nat b1 / 16)) as x1.
      remember (hexDigit (Byte.to_nat b1 mod 16)) as y1.
      remember (hexDigit (Byte.to_nat b2 / 16)) as x2.
      remember (hexDigit (Byte.to_nat b2 mod 16)) as y2.
      cbn in H. injection H as E1 E2 E3. rewrite E1, E2. split; [reflexivity | exact E3]. }
    destruct Hb as [Hb Hs]. apply hexByte_inj in Hb. apply IH in Hs. congruence.
Qed.

Lemma EncodeToString_inj_witness :
  EncodeToString [Byte.x4f; Byte.xa0] = EncodeToString [Byte.x4f; Byte.xa0] /\
  [Byte.x4f; Byte.xa0] = [Byte.x4f; Byte.xa0].
Proof. split; [reflexivity | apply EncodeToString_inj; reflexivity]. Defined.

Lemma get_In (n : nat) (s : string) (c : Ascii.ascii) :
  String.get n s = Some c -> In c (String.list_ascii_of_string s).
Proof.
  revert n. induction s as [|c' s IH]; intros n H; [discriminate H|].
  destruct n as [|n]; cbn in H |- *; [injection H as ->; auto | right; eauto].
Qed.

Lemma hexDigit_In (n : nat) :
  In (hexDigit n) (String.list_ascii_of_string "0123456789abcdef").
Proof.
  unfold hexDigit. destruct (String.get n _) as [c|] eqn:E.
  - eapply get_In; eauto.
  - cbn; auto.
Qed.

(** [hex.EncodeToString] gives two characters a byte, each one of the
    lower-case hex digits. *)
Theorem EncodeToString_shape (bs : list Byte.byte) :
  String.length (EncodeToString bs) = (2 * length bs)%nat /\
  Forall (fun c => In c (String.list_ascii_of_string "0123456789abcdef"))
    (String.list_ascii_of_string (EncodeToString bs)).
Proof.
  induction bs as [|b bs [IHl IHf]]; [split; [reflexivity | constructor]|].
  cbn [EncodeToString]. unfold hexByte. cbv [String.append]. simpl.
  split; [lia|].
  constructor; [apply hexDigit_In|]. constructor; [apply hexDigit_In|]. exact IHf.
Qed.

Lemma hexByte_two (x : Byte.byte) : exists c1 c2, hexByte x = String c1 (String c2 EmptyString).
Proof. unfold hexByte. eauto. Qed.

Lemma hexByte_version (x : Byte.byte) :
  exists c, hexByte (mapByte (fun x => N.lor (N.land x 15) 64) x) = String "4"%char (String c EmptyString).
Proof. destruct x; vm_compute; eexists; reflexivity. Qed.

Lemma hexByte_variant (x : Byte.byte) :
  exists c1 c2, hexByte (mapByte (fun x => N.lor (N.land x 63) 128) x) = String c1 (String c2 EmptyString) /\
  In c1 ["8"%char; "9"%char; "a"%char; "b"%char].
Proof.
  destruct x; vm_compute; do 2 eexists; (split; [reflexivity | repeat (first [left; reflexivity | right])]).
Qed.

(** [generateUUID] on 16 random bytes gives a version-4 UUID string: 36
    characters, dashes at positions 8, 13, 18 and 23, the version digit
    [4] at position 14 and the variant digit (one of 8, 9, a, b) at
    position 19. *)
Theorem generateUUID_format (rnd : list Byte.byte) :
  length rnd = 16%nat ->
  String.length (generateUUID rnd) = 36%nat /\
  String.get 8 (generateUUID rnd) = Some "-"%char /\
  String.get 13 (generateUUID rnd) = Some "-"%char /\
  String.get 18 (generateUUID rnd) = Some "-"%char /\
  String.get 23 (generateUUID rnd) = Some "-"%char /\
  String.get 14 (generateUUID rnd) = Some "4"%char /\
  (exists c, String.get 19 (generateUUID rnd) = Some c /\
     In c ["8"%char; "9"%char; "a"%char; "b"%char]).
Proof.
  intros H.
  do 16 (destruct rnd as [|? rnd]; [discriminate H|]). destruct rnd; [|discriminate H].
  match goal with |- context [generateUUID ?l] =>
    change (generateUUID l) with
      (let b := <[6%nat := mapByte (fun x => N.lor (N.land x 15) 64) (nth 6 l Byte.x00)]> l in
       let b := <[8%nat := mapByte (fun x => N.lor (N.land x 63) 128) (nth 8 b Byte.x00)]> b in
       String.append (EncodeToString (subBytes 0 4 b))
       (String.append "-" (String.append (EncodeToString (subBytes 4 6 b))
       (String.append "-" (String.append (EncodeToString (subBytes 6 8 b))
       (String.append "-" (String.append (EncodeToString (subBytes 8 10 b))
       (String.append "-" (EncodeToString (subBytes 10 16 b)))))))))) end.
  cbv zeta. unfold subBytes. cbn [nth insert list_insert take drop Nat.sub EncodeToString].
  match goal with |- context [mapByte (fun y => N.lor (N.land y 15) 64) ?x] =>
    destruct (hexByte_version x) as [c6 E6]; rewrite E6 end.
  match goal with |- context [mapByte (fun y => N.lor (N.land y 63) 128) ?x] =>
    destruct (hexByte_variant x) as (c8 & c8' & E8 & Hin); rewrite E8 end.
  repeat match goal with |- context [hexByte ?x] =>
    let c1 := fresh "c" in let c2 := fresh "c" in let E := fresh "E" in
    destruct (hexByte_two x) as (c1 & c2 & E); rewrite E end.
  cbv [String.append]. cbn.
  repeat split; eauto.
Qed.

Lemma generateUUID_format_witness :
  length (repeat Byte.xff 16) = 16%nat /\
  String.get 14 (generateUUID (repeat Byte.xff 16)) = Some "4"%char.
Proof.
  split; [reflexivity|].
  apply (generateUUID_format (repeat Byte.xff 16)). reflexivity.
Defined.

Lemma findLastNewline_Some (runes : list Z) (start k i : nat) :
  findLastNewline runes start k = Some i ->
  (start <= i < start + k)%nat /\ runes !! i = Some 10.
Proof.
  induction k as [|k IH]; cbn; [discriminate|].
  case_decide as E; [intros [= <-]; split; [lia | exact E]|].
  intros H. destruct (IH H). split; [lia | auto].
Qed.

Lemma findLastNewline_None (runes : list Z) (start k : nat) :
  findLastNewline runes start k = None ->
  forall j, (start <= j < start + k)%nat -> runes !! j <> Some 10.
Proof.
  induction k as [|k IH]; cbn; [intros; lia|].
  case_decide as E; [discriminate|].
  intros H j Hj. destruct (decide (j = start + k)%nat) as [->|Hne]; [exact E|].
  apply IH; [exact H | lia].
Qed.

Lemma splitLoop_spec (runes : list Z) (m : nat) (Hm : (0 < m)%nat) :
  forall fuel start,
  (start <= length runes)%nat -> (length runes - start < fuel)%nat ->
  exists cs, splitLoop fuel runes m start = Some cs /\
    concat cs = drop start runes /\
    Forall (fun c => (length c <= m)%nat) cs /\
    Forall (fun c => c <> []) cs /\
    (forall i c, (S i < length cs)%nat -> cs !! i = Some c ->
       last c = Some 10 \/ (length c = m /\ ~ In 10 c)).
Proof.
  induction fuel as [|fuel IH]; intros start Hs Hf; [lia|].
  cbn [splitLoop].
  case_decide as Hlt.
  2:{ exists []. rewrite drop_ge by lia. split; [reflexivity|].
      split; [reflexivity|]. split; [constructor|]. split; [constructor|].
      intros i c Hi. cbn in Hi. lia. }
  case_decide as Hend.
  { exists [drop start runes]. split; [reflexivity|].
    split; [cbn; rewrite app_nil_r; reflexivity|].
    split; [constructor; [rewrite length_drop; lia | constructor]|].
    split; [constructor; [|constructor]|].
    - intros E. apply (f_equal length) in E. rewrite length_drop in E. cbn in E. lia.
    - intros i c Hi. cbn in Hi. lia. }
  destruct (findLastNewline runes start m) as [splitAt|] eqn:F.
  - destruct (findLastNewline_Some _ _ _ _ F) as [Hsa Hnl].
    assert (Hsl : (splitAt < length runes)%nat) by (apply lookup_lt_Some in Hnl; exact Hnl).
    destruct (IH (S splitAt)) as (cs & Ecs & Hcat & Hlen & Hne & Hlast); [lia | lia |].
    rewrite Ecs. cbn [option_map].
    eexists; split; [reflexivity|].
    split.
    { cbn [concat]. rewrite Hcat.
      replace (S splitAt) with (start + (S splitAt - start))%nat at 2 by lia.
      rewrite <- drop_drop. apply take_drop. }
    split; [constructor; [rewrite length_take, length_drop; lia | exact Hlen]|].
    split.
    { constructor; [|exact Hne].
      intros E. apply (f_equal length) in E. rewrite length_take, length_drop in E. cbn in E. lia. }
    intros [|i] c Hi Hc.
    + cbn in Hc. injection Hc as <-. left.
      rewrite last_lookup, length_take, length_drop.
      rewrite lookup_take_lt by lia. rewrite lookup_drop.
      replace (start + Nat.pred (min (S splitAt - start) (length runes - start)))%nat with splitAt by lia.
      exact Hnl.
    + cbn in Hi, Hc. apply (Hlast i c); [lia | exact Hc].
  - destruct (IH (start + m)%nat) as (cs & Ecs & Hcat & Hlen & Hne & Hlast); [lia | lia |].
    rewrite Ecs. cbn [option_map].
    eexists; split; [reflexivity|].
    split.
    { cbn [concat]. rewrite Hcat, <- drop_drop. apply take_drop. }
    split; [constructor; [rewrite length_take, length_drop; lia | exact Hlen]|].
    split.
    { constructor; [|exact Hne].
      intros E. apply (f_equal length) in E. rewrite length_take, length_drop in E. cbn in E. lia. }
    intros [|i] c Hi Hc.
    + cbn in Hc. injection Hc as <-. right. split; [rewrite length_take, length_drop; lia|].
      intros Hin. apply list_elem_of_In, list_elem_of_lookup in Hin as [j Hj].
      pose proof (lookup_lt_Some _ _ _ Hj) as Hjl. rewrite length_take, length_drop in Hjl.
      rewrite lookup_take_lt in Hj by lia. rewrite lookup_drop in Hj.
      apply (findLastNewline_None _ _ _ F (start + j)); [lia | exact Hj].
    + cbn in Hi, Hc. apply (Hlast i c); [lia | exact Hc].
Qed.

Lemma splitAtNewlines_ok (runes : list Z) (maxRunes : nat) :
  (0 < maxRunes)%nat ->
  exists chunks, splitAtNewlines runes maxRunes = Some chunks /\
    concat chunks = runes /\
    Forall (fun c => (length c <= maxRunes)%nat) chunks /\
    (runes <> [] -> Forall (fun c => c <> []) chunks) /\
    (forall i c, (S i < length chunks)%nat -> chunks !! i = Some c ->
       last c = Some 10 \/ (length c = maxRunes /\ ~ In 10 c)).
Proof.
  intros Hm. unfold splitAtNewlines. case_decide as Hshort.
  - exists [runes]. split; [reflexivity|].
    split; [cbn; apply app_nil_r|].
    split; [constructor; [lia | constructor]|].
    split; [intros Hne; constructor; [exact Hne | constructor]|].
    intros i c Hi. cbn in Hi. lia.
  - destruct (splitLoop_spec runes maxRunes Hm (S (length runes)) 0) as (cs & E & Hcat & Hlen & Hne & Hlast);
      [lia | lia |].
    exists cs. rewrite drop_0 in Hcat. auto 6.
Qed.

(** [splitAtNewlines] with a positive [maxRunes] always ends.  Its chunks
    put back together give the text; none has more than [maxRunes] runes;
    none is empty unless the text is; and every chunk but the last ends
    with its newline or, when its window held no newline, is a hard split
    of exactly [maxRunes] runes without a newline. *)
Theorem splitAtNewlines_spec (runes : list Z) (maxRunes : nat) :
  (0 < maxRunes)%nat ->
  exists chunks, splitAtNewlines runes maxRunes = Some chunks /\
    concat chunks = runes /\
    Forall (fun c => (length c <= maxRunes)%nat) chunks /\
    (runes <> [] -> Forall (fun c => c <> []) chunks) /\
    (forall i c, (S i < length chunks)%nat -> chunks !! i = Some c ->
       last c = Some 10 \/ (length c = maxRunes /\ ~ In 10 c)).
Proof. exact (splitAtNewlines_ok runes maxRunes). Qed.

Lemma splitAtNewlines_spec_witness :
  (0 < 3)%nat /\
  splitAtNewlines [104; 105; 10; 119; 111; 114; 108; 100] 3 =
    Some [[104; 105; 10]; [119; 111; 114]; [108; 100]].
Proof.
  split; [lia|].
  destruct (splitAtNewlines_spec [104; 105; 10; 119; 111; 114; 108; 100] 3) as (cs & E & _);
    [lia|].
  rewrite E. vm_compute in E. symmetry. exact E.
Defined.

(** With [maxRunes = 0] a non-empty text never leaves the loop: [start]
    does not move, whatever the number of iterations. *)
Theorem splitAtNewlines_zero_diverges (runes : list Z) :
  runes <> [] -> forall fuel, splitLoop fuel runes 0 0 = None.
Proof.
  intros Hne fuel. induction fuel as [|fuel IH]; [reflexivity|].
  cbn [splitLoop]. rewrite Nat.add_0_r.
  destruct runes as [|r rs]; [congruence|].
  case_decide as H1; [|cbn in H1; lia].
  case_decide as H2; [cbn in H2; lia|].
  cbn [findLastNewline]. rewrite IH. reflexivity.
Qed.

Lemma splitAtNewlines_zero_diverges_witness :
  [10] <> [] /\ splitLoop 5 [10] 0 0 = None.
Proof.
  split; [discriminate|]. apply (splitAtNewlines_zero_diverges [10]). discriminate.
Defined.

Lemma convertUpdate_sound (u : TelegramUpdate) (up : Update) :
  convertUpdate u = Some up ->
  u_Text up <> "" /\ UpdateID up = tu_UpdateID u /\
  match tu_Message u with
  | Some m => From m = Some (u_UserID up) /\ Chat m = u_ChatID up /\ tm_Text m = u_Text up
  | None => exists cq m, tu_CallbackQuery u = Some cq /\ cq_Message cq = Some m /\
      cq_From cq = u_UserID up /\ Chat m = u_ChatID up /\ Data cq = u_Text up
  end.
Proof.
  unfold convertUpdate.
  destruct (tu_Message u) as [m|].
  - destruct (From m) as [from|]; [|discriminate].
    destruct (String.eqb_spec (tm_Text m) "") as [_|Hne]; [discriminate|].
    intros [= <-]. cbn. auto.
  - destruct (tu_CallbackQuery u) as [cq|]; [|discriminate].
    destruct (cq_Message cq) as [m|] eqn:Em; [|discriminate].
    destruct (String.eqb_spec (Data cq) "") as [_|Hne]; [discriminate|].
    intros [= <-]. cbn. split; [exact Hne|]. split; [reflexivity|]. eauto 10.
Qed.

(** [Poll] only returns updates with a non-empty text, in the order of
    [getUpdates] (their ids a sub-sequence of the raw ones), each one read
    off the raw update with its id: from its message when it has one (the
    sender and the text), from its callback query (sender and data)
    only when it has no message. *)
Theorem Poll_updates (raw : list TelegramUpdate) :
  exists ups, Poll (Some raw) = Some ups /\
    Forall (fun up => u_Text up <> "") ups /\
    sublist (map UpdateID ups) (map tu_UpdateID raw) /\
    Forall (fun up => exists u, In u raw /\ tu_UpdateID u = UpdateID up /\
      match tu_Message u with
      | Some m => From m = Some (u_UserID up) /\ Chat m = u_ChatID up /\ tm_Text m = u_Text up
      | None => exists cq m, tu_CallbackQuery u = Some cq /\ cq_Message cq = Some m /\
          cq_From cq = u_UserID up /\ Chat m = u_ChatID up /\ Data cq = u_Text up
      end) ups.
Proof.
  exists (omap convertUpdate raw). split; [reflexivity|].
  induction raw as [|u raw (IHt & IHs & IHf)]; [repeat split; constructor|].
  cbn [omap list_omap map]. destruct (convertUpdate u) as [up|] eqn:E.
  - destruct (convertUpdate_sound u up E) as (Ht & Hid & Hm).
    split; [constructor; assumption|].
    split; [cbn [map]; rewrite Hid; apply sublist_skip; exact IHs|].
    constructor.
    + exists u. split; [left; reflexivity|]. auto.
    + eapply Forall_impl; [exact IHf|]. intros up' (u' & Hin & Hrest). exists u'. split; [right; exact Hin | exact Hrest].
  - split; [exact IHt|]. split; [apply sublist_cons; exact IHs|].
    eapply Forall_impl; [exact IHf|]. intros up' (u' & Hin & Hrest). exists u'. split; [right; exact Hin | exact Hrest].
Qed.

Lemma retryLoop_spec (ctxErr : nat -> bool) (fnOut : nat -> Outcome) (sleepOk : nat -> bool)
    (maxR : nat) :
  forall k attempt lastErr r n,
  (attempt + k = S maxR)%nat -> (attempt <= maxR)%nat ->
  retryLoop ctxErr fnOut sleepOk k attempt maxR lastErr = (r, n) ->
  (n <= k)%nat /\
  (forall i, (attempt <= i < attempt + pred n)%nat ->
     match fnOut i with OResp st => shouldRetryStatus st = true | OErr e => shouldRetryError e = true end) /\
  (r = RetErr (Some ECtx) \/
   (exists st, r = RetResp st /\ (1 <= n)%nat /\ fnOut (attempt + pred n)%nat = OResp st /\
      (shouldRetryStatus st = false \/ (attempt + n = S maxR)%nat)) \/
   (exists e, r = RetErr (Some (EFn e)) /\ (1 <= n)%nat /\ fnOut (attempt + pred n)%nat = OErr e /\
      (shouldRetryError e = false \/ (attempt + n = S maxR)%nat))).
Proof.
  induction k as [|k IH]; intros attempt lastErr r n Hk Ha E; [lia|].
  cbn [retryLoop] in E.
  destruct (ctxErr attempt).
  { injection E as <- <-. split; [lia|]. split; [intros; lia|]. left. reflexivity. }
  destruct (fnOut attempt) as [st|e] eqn:Ef.
  - destruct (negb (shouldRetryStatus st) || Nat.eqb attempt maxR) eqn:Ec.
    { injection E as <- <-. split; [lia|]. split; [intros; lia|].
      right; left. exists st. rewrite Nat.add_0_r. split; [reflexivity|]. split; [lia|].
      split; [exact Ef|]. apply orb_true_iff in Ec as [Ec|Ec].
      - left. apply negb_true_iff in Ec. exact Ec.
      - right. apply Nat.eqb_eq in Ec. lia. }
    apply orb_false_iff in Ec as [Er Em]. apply negb_false_iff in Er. apply Nat.eqb_neq in Em.
    destruct (sleepOk attempt).
    2:{ injection E as <- <-. split; [lia|]. split; [intros; lia|]. left. reflexivity. }
    destruct (retryLoop ctxErr fnOut sleepOk k (S attempt) maxR (Some (EStatus st))) as [r' n'] eqn:E'.
    injection E as <- <-.
    destruct (IH (S attempt) (Some (EStatus st)) r' n' ltac:(lia) ltac:(lia) E') as (Hn & Hr & Hres).
    split; [lia|]. split.
    + intros i Hi. destruct (decide (i = attempt)) as [->|Hne]; [rewrite Ef; exact Er|].
      apply Hr. destruct n'; cbn in Hi |- *; lia.
    + destruct Hres as [Hc | [(st' & -> & H1 & H2 & H3) | (e' & -> & H1 & H2 & H3)]]; [left; exact Hc| |].
      * right; left. exists st'. split; [reflexivity|]. split; [lia|].
        replace (attempt + pred (S n'))%nat with (S attempt + pred n')%nat by lia.
        split; [exact H2|]. destruct H3; [left; assumption | right; lia].
      * right; right. exists e'. split; [reflexivity|]. split; [lia|].
        replace (attempt + pred (S n'))%nat with (S attempt + pred n')%nat by lia.
        split; [exact H2|]. destruct H3; [left; assumption | right; lia].
  - destruct (negb (shouldRetryError e) || Nat.eqb attempt maxR) eqn:Ec.
    { injection E as <- <-. split; [lia|]. split; [intros; lia|].
      right; right. exists e. rewrite Nat.add_0_r. split; [reflexivity|]. split; [lia|].
      split; [exact Ef|]. apply orb_true_iff in Ec as [Ec|Ec].
      - left. apply negb_true_iff in Ec. exact Ec.
      - right. apply Nat.eqb_eq in Ec. lia. }
    apply orb_false_iff in Ec as [Er Em]. apply negb_false_iff in Er. apply Nat.eqb_neq in Em.
    destruct (sleepOk attempt).
    2:{ injection E as <- <-. split; [lia|]. split; [intros; lia|]. left. reflexivity. }
    destruct (retryLoop ctxErr fnOut sleepOk k (S attempt) maxR (Some (EFn e))) as [r' n'] eqn:E'.
    injection E as <- <-.
    destruct (IH (S attempt) (Some (EFn e)) r' n' ltac:(lia) ltac:(lia) E') as (Hn & Hr & Hres).
    split; [lia|]. split.
    + intros i Hi. destruct (decide (i = attempt)) as [->|Hne]; [rewrite Ef; exact Er|].
      apply Hr. destruct n'; cbn in Hi |- *; lia.
    + destruct Hres as [Hc | [(st' & -> & H1 & H2 & H3) | (e' & -> & H1 & H2 & H3)]]; [left; exact Hc| |].
      * right; left. exists st'. split; [reflexivity|]. split; [lia|].
        replace (attempt + pred (S n'))%nat with (S attempt + pred n')%nat by lia.
        split; [exact H2|]. destruct H3; [left; assumption | right; lia].
      * right; right. exists e'. split; [reflexivity|]. split; [lia|].
        replace (attempt + pred (S n'))%nat with (S attempt + pred n')%nat by lia.
        split; [exact H2|]. destruct H3; [left; assumption | right; lia].
Qed.

(** [doWithRetry] calls [fn] at most [MaxRetries + 1] times ([MaxRetries]
    being 3 when it is not positive), and calls it again only after a
    retryable outcome (status 429 or 5xx, or a retryable error).  It ends
    with the context's error, or with the last call's outcome, which is
    not retryable unless it came from the last allowed attempt: the
    [lastErr] after the loop is never returned. *)
Theorem doWithRetry_spec (ctxErr : nat -> bool) (fnOut : nat -> Outcome) (sleepOk : nat -> bool)
    (MaxRetries : Z) (r : RetryResult) (calls : nat) :
  doWithRetry ctxErr fnOut sleepOk MaxRetries = (r, calls) ->
  (calls <= S (effMaxRetries MaxRetries))%nat /\
  (forall i, (i < pred calls)%nat ->
     match fnOut i with OResp st => shouldRetryStatus st = true | OErr e => shouldRetryError e = true end) /\
  (r = RetErr (Some ECtx) \/
   (exists st, r = RetResp st /\ fnOut (pred calls) = OResp st /\
      (shouldRetryStatus st = false \/ calls = S (effMaxRetries MaxRetries))) \/
   (exists e, r = RetErr (Some (EFn e)) /\ fnOut (pred calls) = OErr e /\
      (shouldRetryError e = false \/ calls = S (effMaxRetries MaxRetries)))).
Proof.
  unfold doWithRetry. intros E.
  destruct (retryLoop_spec ctxErr fnOut sleepOk (effMaxRetries MaxRetries) (S (effMaxRetries MaxRetries)) 0 None r calls
              ltac:(lia) ltac:(lia) E) as (Hn & Hr & Hres).
  split; [exact Hn|]. split; [intros i Hi; apply Hr; lia|].
  destruct Hres as [Hc | [(st & Hst & _ & H2 & H3) | (e & He & _ & H2 & H3)]]; [left; exact Hc| |].
  - right; left. exists st. cbn in H2. auto.
  - right; right. exists e. cbn in H2. auto.
Qed.

Lemma doWithRetry_spec_witness :
  doWithRetry (fun _ => false) (fun i => if Nat.eqb i 0 then OResp 503 else OResp 200) (fun _ => true) 0
    = (RetResp 200, 2%nat) /\ (2 <= S (effMaxRetries 0))%nat.
Proof.
  split; [reflexivity|].
  apply (doWithRetry_spec (fun _ => false) (fun i => if Nat.eqb i 0 then OResp 503 else OResp 200)
           (fun _ => true) 0 (RetResp 200) 2). reflexivity.
Defined.

(** A server that keeps answering with the same retryable status, with
    the context alive, is called exactly [MaxRetries + 1] times and its
    last response is returned as a response, not as an error. *)
Theorem doWithRetry_exhausts (ctxErr : nat -> bool) (fnOut : nat -> Outcome) (sleepOk : nat -> bool)
    (MaxRetries : Z) (st : Z) :
  (forall i, ctxErr i = false) -> (forall i, sleepOk i = true) ->
  (forall i, fnOut i = OResp st) -> shouldRetryStatus st = true ->
  doWithRetry ctxErr fnOut sleepOk MaxRetries = (RetResp st, S (effMaxRetries MaxRetries)).
Proof.
  intros Hc Hs Hf Hst. unfold doWithRetry.
  assert (G : forall k attempt lastErr, (attempt + k = S (effMaxRetries MaxRetries))%nat ->
            (attempt <= effMaxRetries MaxRetries)%nat ->
            retryLoop ctxErr fnOut sleepOk k attempt (effMaxRetries MaxRetries) lastErr = (RetResp st, k)).
  { induction k as [|k IH]; intros attempt lastErr Hk Ha; [lia|].
    cbn [retryLoop]. rewrite Hc, Hf, Hst. cbn [negb orb].
    destruct (Nat.eqb_spec attempt (effMaxRetries MaxRetries)) as [Heq|Hne].
    - f_equal. lia.
    - rewrite Hs, (IH (S attempt)) by lia. reflexivity. }
  apply G; lia.
Qed.

Lemma doWithRetry_exhausts_witness :
  shouldRetryStatus 429 = true /\
  doWithRetry (fun _ => false) (fun _ => OResp 429) (fun _ => true) (-1) = (RetResp 429, 4%nat).
Proof.
  split; [reflexivity|].
  apply (doWithRetry_exhausts (fun _ => false) (fun _ => OResp 429) (fun _ => true) (-1) 429);
    reflexivity.
Defined.

Lemma last_cons_default {A} (a : A) (l : list A) (d d' : A) :
  List.last (a :: l) d = List.last (a :: l) d'.
Proof. revert a. induction l as [|b l IH]; intros a; [reflexivity|]. exact (IH b). Qed.

Lemma linkedFrom_snoc (p : string) (es : list Event) (e : Event) :
  linkedFrom p es -> se_ParentID e = List.last (map se_ID es) p -> linkedFrom p (es ++ [e]).
Proof.
  revert p. induction es as [|e0 es IH]; intros p; cbn.
  - intros _ ->. auto.
  - intros [H0 H1] He. split; [exact H0|]. apply IH; [exact H1|].
    rewrite He. destruct es as [|e1 es]; [reflexivity|]. apply last_cons_default.
Qed.

Lemma fileOf_insert_eq (R : gmap Z Recorder) (F : gmap Z (list Event)) (uid : Z) (f : list Event) :
  fileOf (mkStore R (<[uid := f]> F)) uid = f.
Proof. unfold fileOf. cbn. rewrite lookup_insert_eq. reflexivity. Qed.

Lemma fileOf_insert_ne (R : gmap Z Recorder) (F : gmap Z (list Event)) (uid v : Z) (f : list Event) :
  uid <> v -> fileOf (mkStore R (<[uid := f]> F)) v = fileOf (mkStore R F) v.
Proof. intros H. unfold fileOf. cbn. rewrite lookup_insert_ne by exact H. reflexivity. Qed.

(** Recording one message for [uid] into a chained file through a recorder
    [r] keeps it chained. *)
Lemma Record_chained (rnd : nat -> Byte.byte * Byte.byte * Byte.byte * Byte.byte)
    (r : Recorder) (init : Event) (rest : list Event) (msg : Message) (w : bool) :
  linkedFrom (se_ID init) rest -> Forall (fun e => se_Type e = "message") rest ->
  lastID r = List.last (map se_ID rest) (se_ID init) ->
  let '(f', r') := Record_ rnd r (init :: rest) msg w in
  exists rest', f' = init :: rest' /\ linkedFrom (se_ID init) rest' /\
    Forall (fun e => se_Type e = "message") rest' /\
    lastID r' = List.last (map se_ID rest') (se_ID init).
Proof.
  intros Hl Hm Hr. unfold Record_. destruct w.
  - exists (rest ++ [messageEvent msg (lastID r) (newID (rnd (draw r)))]).
    split; [reflexivity|]. split; [apply linkedFrom_snoc; [exact Hl | exact Hr]|].
    split; [apply Forall_app; split; [exact Hm | constructor; [reflexivity | constructor]]|].
    cbn [lastID]. rewrite map_app. cbn [map]. rewrite List.last_last. reflexivity.
  - exists rest. auto.
Qed.

Lemma Store_Record_chained (rnd : nat -> Byte.byte * Byte.byte * Byte.byte * Byte.byte)
    (s : Store) (uid : Z) (msg : Message) (k : nat) (o w : bool) :
  store_chained s -> store_chained (Store_Record rnd s uid msg k o w).
Proof.
  intros Hs. unfold Store_Record, recorderFor.
  destruct (recorders s !! uid) as [r|] eqn:Er.
  - destruct (Hs uid) as [[Hn _] | (r0 & init & rest & Hr0 & Hf & Ht & Hu & Hp & Hl & Hm & Hlast)];
      [congruence|].
    rewrite Er in Hr0. injection Hr0 as <-. rewrite Hf.
    pose proof (Record_chained rnd r init rest msg w Hl Hm Hlast) as HR.
    destruct (Record_ rnd r (init :: rest) msg w) as [f' r'].
    destruct HR as (rest' & -> & Hl' & Hm' & Hlast').
    intros v. destruct (decide (uid = v)) as [<-|Hne].
    + right. exists r', init, rest'. cbn [recorders]. rewrite lookup_insert_eq, fileOf_insert_eq. auto 10.
    + cbn [recorders]. rewrite lookup_insert_ne by exact Hne. rewrite fileOf_insert_ne by exact Hne.
      exact (Hs v).
  - destruct (Hs uid) as [[_ Hf] | (r0 & init & rest & Hr0 & _)]; [|congruence].
    rewrite Hf. unfold newRecorder. destruct o; [|exact Hs].
    cbn [recorders]. rewrite fileOf_insert_eq.
    set (init := sessionInitEvent uid (newID (rnd k))).
    pose proof (Record_chained rnd (mkRecorder uid (se_ID init) (S k)) init [] msg w I (List.Forall_nil _) eq_refl) as HR.
    destruct (Record_ rnd (mkRecorder uid (se_ID init) (S k)) [init] msg w) as [f' r'].
    destruct HR as (rest' & -> & Hl' & Hm' & Hlast').
    cbn [recorders files].
    intros v. destruct (decide (uid = v)) as [<-|Hne].
    + right. exists r', init, rest'. cbn [recorders]. rewrite lookup_insert_eq, fileOf_insert_eq. auto 10.
    + pose proof (Hs v) as Hv. unfold fileOf in Hv |- *. cbn [recorders files].
      rewrite !lookup_insert_ne by exact Hne. exact Hv.
Qed.

(** Through any run of [Store.Record] calls, interleaving users, on a
    store opened on an empty directory, every user's session file is empty
    or one chain: it starts with that user's session record (with no
    parent), and every later record is a message whose parent is the
    record before it. *)
Theorem Store_RecordAll_chained (rnd : nat -> Byte.byte * Byte.byte * Byte.byte * Byte.byte)
    (calls : list (Z * Message * nat * bool * bool)) (uid : Z) :
  fileOf (Store_RecordAll rnd (mkStore ∅ ∅) calls) uid = [] \/
  exists init rest, fileOf (Store_RecordAll rnd (mkStore ∅ ∅) calls) uid = init :: rest /\
    se_Type init = "session" /\ se_UserID init = uid /\ se_ParentID init = "" /\
    linkedFrom (se_ID init) rest /\ Forall (fun e => se_Type e = "message") rest.
Proof.
  assert (G : forall s, store_chained s -> store_chained (Store_RecordAll rnd s calls)).
  { induction calls as [|[[[[v msg] k] o] w] calls IH]; intros s Hs; [exact Hs|].
    cbn [Store_RecordAll]. apply IH, Store_Record_chained, Hs. }
  assert (H0 : store_chained (mkStore ∅ ∅)).
  { intros v. left. split; reflexivity. }
  destruct (G _ H0 uid) as [[_ Hf] | (r & init & rest & _ & Hf & Ht & Hu & Hp & Hl & Hm & _)].
  - left. exact Hf.
  - right. exists init, rest. auto 10.
Qed.

Lemma fireReminders_rows (rs : list ReminderRow) (now : Z) (uuid : nat -> string) (k : nat)
    (upd : Z -> option Z) :
  fst (fst (fireReminders rs now true uuid k upd)) = map (firedRow upd (selectDue rs now)) rs.
Proof.
  unfold fireReminders.
  pose proof (publishDue_spec rs (selectDue rs now) uuid k upd) as H.
  destruct (publishDue rs (selectDue rs now) uuid k upd) as [[rs' tr] k'].
  destruct H as (H1 & _). exact H1.
Qed.

(** A due reminder whose [UPDATE ... SET fired_at] succeeds is never due
    again: after the tick, no row with its id is selected by any later
    tick, whatever its time. *)
Theorem fireReminders_marked_not_due (rs : list ReminderRow) (now : Z) (uuid : nat -> string)
    (k : nat) (upd : Z -> option Z) (r : ReminderRow) (t now' : Z) :
  In r (selectDue rs now) -> upd (rem_id r) = Some t ->
  forall r', In r' (selectDue (fst (fst (fireReminders rs now true uuid k upd))) now') ->
  rem_id r' <> rem_id r.
Proof.
  intros Hr Hu r' Hr' Hid.
  rewrite fireReminders_rows in Hr'.
  apply selectDue_spec in Hr' as (Hin & _ & Hf).
  apply in_map_iff in Hin as (r0 & <- & Hr0).
  assert (Hid0 : rem_id r0 = rem_id r).
  { rewrite <- Hid. unfold firedRow, setFired.
    destruct (existsb _ _); [|reflexivity]. destruct (upd (rem_id r0)); [|reflexivity].
    destruct (Z.eqb _ _); reflexivity. }
  unfold firedRow in Hf.
  assert (Hex : existsb (fun d => Z.eqb (rem_id d) (rem_id r0)) (selectDue rs now) = true).
  { apply existsb_exists. exists r. split; [exact Hr|]. apply Z.eqb_eq. congruence. }
  rewrite Hex, Hid0, Hu in Hf. unfold setFired in Hf. rewrite Hid0, Z.eqb_refl in Hf. discriminate Hf.
Qed.

Lemma fireReminders_marked_not_due_witness :
  In rem_r1 (selectDue [rem_r1] 5) /\
  (forall r', In r' (selectDue (fst (fst (fireReminders [rem_r1] 5 true (fun _ => "id") 0
                                             (fun _ => Some 6)))) 100) ->
   rem_id r' <> rem_id rem_r1).
Proof.
  split; [left; reflexivity|].
  apply (fireReminders_marked_not_due [rem_r1] 5 (fun _ => "id") 0 (fun _ => Some 6) rem_r1 6 100);
    [left; reflexivity | reflexivity].
Defined.

(** A due reminder whose [UPDATE] fails is left as it was, so every later
    tick whose query succeeds selects it again and publishes it once
    more. *)
Theorem fireReminders_failed_refires (rs : list ReminderRow) (now : Z) (uuid : nat -> string)
    (k : nat) (upd : Z -> option Z) (r : ReminderRow) (now' : Z) :
  In r (selectDue rs now) -> upd (rem_id r) = None -> now <= now' ->
  In r (selectDue (fst (fst (fireReminders rs now true uuid k upd))) now').
Proof.
  intros Hr Hu Hle. rewrite fireReminders_rows.
  apply selectDue_spec in Hr as (Hin & Hfa & Hf).
  apply selectDue_spec. split; [|split; [lia | exact Hf]].
  apply in_map_iff. exists r. split; [|exact Hin].
  unfold firedRow. destruct (existsb _ _); [rewrite Hu|]; reflexivity.
Qed.

Lemma fireReminders_failed_refires_witness :
  In rem_r1 (selectDue [rem_r1] 5) /\
  In rem_r1 (selectDue (fst (fst (fireReminders [rem_r1] 5 true (fun _ => "id") 0
                                    (fun _ => None)))) 8).
Proof.
  split; [left; reflexivity|].
  apply (fireReminders_failed_refires [rem_r1] 5 (fun _ => "id") 0 (fun _ => None) rem_r1 8);
    [left; reflexivity | reflexivity | lia].
Defined.

(** The send loop of [send_user_message] calls [tg.Send] once for every
    recipient, in order, with the message as given, whatever the earlier
    sends gave; every recipient is either counted as sent (and named in
    the result) or as failed, the failures being the sends that failed.
    Apart from the sends it only injects the message (as an assistant
    message) into a recipient's context when an injector is set, and
    publishes the message as a relay event only to a recipient whose role
    is manager, when there is a bus. *)
Theorem sendLoop_effects users tctx hasInjector hasBus sendOk uuid msg j k rs :
  let '(effs, names, failed, k2) :=
    sendLoop users tctx hasInjector hasBus sendOk uuid msg j k rs in
  omap (fun e => match e with EffSend c m => Some (c, m) | _ => None end) effs
    = map (fun r => (r.1, msg)) rs /\
  (length names + failed = length rs)%nat /\
  failed = length (List.filter (fun i => negb (sendOk i)) (seq j (length rs))) /\
  Forall (fun e => match e with
    | EffSend _ m => m = msg
    | EffInject u m => hasInjector = true /\ m = assistantMessage msg /\ In u (map fst rs)
    | EffPublish ev => hasBus = true /\ lookupRole users (ev_TargetID ev) = "manager" /\
        In (ev_TargetID ev) (map fst rs) /\ ev_Content ev = msg
    | _ => False
    end) effs.
Proof.
  revert j k. induction rs as [|[tid nm] rs IH]; intros j k; cbn [sendLoop].
  { split; [reflexivity|]. split; [reflexivity|]. split; [reflexivity|]. constructor. }
  assert (Hmono : forall effs, Forall (fun e => match e with
    | EffSend _ m => m = msg
    | EffInject u m => hasInjector = true /\ m = assistantMessage msg /\ In u (map fst rs)
    | EffPublish ev => hasBus = true /\ lookupRole users (ev_TargetID ev) = "manager" /\
        In (ev_TargetID ev) (map fst rs) /\ ev_Content ev = msg
    | _ => False
    end) effs -> Forall (fun e => match e with
    | EffSend _ m => m = msg
    | EffInject u m => hasInjector = true /\ m = assistantMessage msg /\ In u (map fst ((tid, nm) :: rs))
    | EffPublish ev => hasBus = true /\ lookupRole users (ev_TargetID ev) = "manager" /\
        In (ev_TargetID ev) (map fst ((tid, nm) :: rs)) /\ ev_Content ev = msg
    | _ => False
    end) effs).
  { intros effs H. eapply Forall_impl; [exact H|]. intros [] He; cbn in *; intuition. }
  destruct (sendOk j) eqn:Ej.
  - destruct (if String.eqb (lookupRole users tid) "manager" && hasBus
              then ([EffPublish (mkAgentEvent "relay" tid tid msg
                       (senderName users (tctx_UserID tctx)) (uuid k))], S k)
              else ([], k)) as [pub k1] eqn:Epub.
    specialize (IH (S j) k1).
    destruct (sendLoop users tctx hasInjector hasBus sendOk uuid msg (S j) k1 rs)
      as [[[effs names] failed] k2].
    destruct IH as (H1 & H2 & H3 & H4).
    split.
    { cbn [omap list_omap]. rewrite omap_app.
      replace (omap _ (if hasInjector then [EffInject tid (assistantMessage msg)] else []))
        with (@nil (Z * string)) by (destruct hasInjector; reflexivity).
      rewrite omap_app.
      replace (omap _ pub) with (@nil (Z * string))
        by (destruct (_ && hasBus); injection Epub as <- <-; reflexivity).
      rewrite H1. reflexivity. }
    split; [cbn [length]; lia|].
    split; [cbn [length seq List.filter]; rewrite Ej; exact H3|].
    constructor; [reflexivity|].
    apply Forall_app. split.
    { destruct hasInjector eqn:Ei; constructor; [|constructor].
      cbn. split; [reflexivity|]. split; [reflexivity|]. left. reflexivity. }
    apply Forall_app. split; [|apply Hmono, H4].
    destruct (String.eqb_spec (lookupRole users tid) "manager") as [Hr|Hr];
      destruct hasBus eqn:Eb; cbn in Epub; injection Epub as <- <-; try constructor.
    + cbn. split; [reflexivity|]. split; [exact Hr|]. split; [left; reflexivity | reflexivity].
    + constructor.
  - specialize (IH (S j) k).
    destruct (sendLoop users tctx hasInjector hasBus sendOk uuid msg (S j) k rs)
      as [[[effs names] failed] k2].
    destruct IH as (H1 & H2 & H3 & H4).
    split; [cbn [omap list_omap]; rewrite H1; reflexivity|].
    split; [cbn [length]; lia|].
    split; [cbn [length seq List.filter]; rewrite Ej; cbn; rewrite H3; reflexivity|].
    constructor; [reflexivity | apply Hmono, H4].
Qed.

Lemma firedRow_cons (upd : Z -> option Z) (d : ReminderRow) (due : list ReminderRow)
    (r : ReminderRow) :
  firedRow upd due (match upd (rem_id d) with Some t => setFired (rem_id d) t r | None => r end)
  = firedRow upd (d :: due) r.
Proof.
  unfold firedRow, setFired. cbn [existsb].
  destruct (Z.eqb_spec (rem_id d) (rem_id r)) as [Hd|Hd]; cbn [orb].
  - rewrite Hd. destruct (upd (rem_id r)) as [t|] eqn:Eu.
    + rewrite Z.eqb_refl. cbn [rem_id].
      destruct (existsb _ due); [rewrite Eu, Z.eqb_refl|]; reflexivity.
    + destruct (existsb _ due); rewrite ?Eu; reflexivity.
  - destruct (Z.eqb_spec (rem_id r) (rem_id d)) as [E|E]; [congruence|].
    destruct (upd (rem_id d)); reflexivity.
Qed.

Lemma sendDue_spec (rs due : list ReminderRow) (j : nat) (sendOk : nat -> bool)
    (upd : Z -> option Z) :
  let '(rs', tr) := sendDue rs due j sendOk upd in
  rs' = map (firedRow upd (sentRows due j sendOk)) rs /\
  omap (fun e => match e with EffSend c m => Some (c, m) | _ => None end) tr
    = map (fun r => (rem_chat_id r, rem_message r)) due.
Proof.
  revert rs j. induction due as [|d due IH]; intros rs j; cbn [sendDue sentRows].
  { split; [|reflexivity]. rewrite <- (map_id rs) at 1. apply map_ext. intros r. reflexivity. }
  destruct (sendOk j).
  - set (rs1 := map (fun r => match upd (rem_id d) with
                              | Some t => setFired (rem_id d) t r | None => r end) rs).
    destruct (match upd (rem_id d) with
              | Some t => (map (setFired (rem_id d) t) rs, [EffLog "reminder fired"])
              | None => (rs, [EffLog "reminder mark fired"]) end) as [rsA trA] eqn:EA.
    assert (HA : rsA = rs1 /\ trA = [EffLog "reminder fired"] \/
                 rsA = rs1 /\ trA = [EffLog "reminder mark fired"]).
    { unfold rs1. destruct (upd (rem_id d)); injection EA as <- <-;
        [left | right; rewrite map_id]; auto. }
    specialize (IH rsA (S j)).
    destruct (sendDue rsA due (S j) sendOk upd) as [rs2 tr2].
    destruct IH as [IH1 IH2].
    split.
    + rewrite IH1. destruct HA as [[-> _]|[-> _]]; unfold rs1; rewrite map_map;
        apply map_ext; intros r; apply firedRow_cons.
    + cbn [omap list_omap]. rewrite omap_app.
      destruct HA as [[_ ->]|[_ ->]]; cbn; rewrite IH2; reflexivity.
  - specialize (IH rs (S j)).
    destruct (sendDue rs due (S j) sendOk upd) as [rs2 tr2].
    destruct IH as [IH1 IH2].
    split.
    + exact IH1.
    + cbn. rewrite IH2. reflexivity.
Qed.

(** A tick of the Telegram reminder loop whose query succeeds sends every
    due reminder once, in [fire_at] order, to its chat with its message,
    whether or not earlier sends failed; the rows it marks fired are only
    those of the due reminders whose send succeeded (and whose UPDATE
    succeeded): every other row is left as it was. *)
Theorem fireRemindersTG_marks_sent rs now ctxAlive sendOk upd :
  let '(rs', tr) := fireRemindersTG rs now true ctxAlive sendOk upd in
  omap (fun e => match e with EffSend c m => Some (c, m) | _ => None end) tr
    = map (fun r => (rem_chat_id r, rem_message r)) (selectDue rs now) /\
  rs' = map (firedRow upd (sentRows (selectDue rs now) 0 sendOk)) rs.
Proof.
  unfold fireRemindersTG.
  pose proof (sendDue_spec rs (selectDue rs now) 0 sendOk upd) as H.
  destruct (sendDue rs (selectDue rs now) 0 sendOk upd) as [rs' tr].
  destruct H as [H1 H2]. split; assumption.
Qed.

(** In the Telegram reminder loop a due reminder whose send failed (no
    sent reminder shares its id) is not marked, so every later tick whose
    query succeeds selects it again. *)
Theorem fireRemindersTG_failed_send_refires rs now ctxAlive sendOk upd r now' :
  In r (selectDue rs now) ->
  (forall d, In d (sentRows (selectDue rs now) 0 sendOk) -> rem_id d <> rem_id r) ->
  now <= now' ->
  In r (selectDue (fst (fireRemindersTG rs now true ctxAlive sendOk upd)) now').
Proof.
  intros Hr Hns Hle.
  unfold fireRemindersTG.
  pose proof (sendDue_spec rs (selectDue rs now) 0 sendOk upd) as H.
  destruct (sendDue rs (selectDue rs now) 0 sendOk upd) as [rs' tr].
  destruct H as [H1 _]. cbn [fst]. rewrite H1.
  apply selectDue_spec in Hr as (Hin & Hfa & Hf).
  apply selectDue_spec. split; [|split; [lia | exact Hf]].
  apply in_map_iff. exists r. split; [|exact Hin].
  unfold firedRow.
  destruct (existsb _ _) eqn:Ex; [|reflexivity].
  apply existsb_exists in Ex as (d & Hd & Heq). apply Z.eqb_eq in Heq.
  exfalso. exact (Hns d Hd Heq).
Qed.

Lemma fireRemindersTG_failed_send_refires_witness :
  In rem_r1 (selectDue [rem_r1] 5) /\
  In rem_r1 (selectDue (fst (fireRemindersTG [rem_r1] 5 true true (fun _ => false)
                              (fun _ => Some 6))) 9).
Proof.
  split; [left; reflexivity|].
  apply (fireRemindersTG_failed_send_refires [rem_r1] 5 true (fun _ => false) (fun _ => Some 6)
           rem_r1 9); [left; reflexivity | intros d [] | lia].
Defined.

Lemma last_cons_shift {A} (x : A) (l : list A) (d : A) :
  List.last (x :: l) d = List.last l x.
Proof. destruct l as [|y l]; [reflexivity|]. exact (last_cons_default y l d x). Qed.

Lemma commitsOf_no_commit tr : no_commit tr -> commitsOf tr = [].
Proof.
  induction 1 as [|e tr He _ IH]; [reflexivity|].
  destruct e; try discriminate; simpl; exact IH.
Qed.

(** The Telegram-only loop commits, for a batch it handles to the end,
    exactly the offsets [UpdateID + 1] of the batch's updates, in order,
    and leaves its offset at the last one (unchanged for an empty batch);
    when a turn is still running it has committed the offsets of the
    updates before that one only. *)
Theorem runTelegramOnlyBatch_commits o a offset now answersFor updates :
  let '(_, tr, off', st) := runTelegramOnlyBatch o a offset now answersFor updates in
  (st = Finished ->
     commitsOf tr = map (fun u => UpdateID u + 1) updates /\
     off' = List.last (map (fun u => UpdateID u + 1) updates) offset) /\
  (st = Running ->
     exists k, (k < length updates)%nat /\
       commitsOf tr = map (fun u => UpdateID u + 1) (take k updates) /\
       off' = List.last (map (fun u => UpdateID u + 1) (take k updates)) offset).
Proof.
  revert a offset. induction updates as [|u rest IH]; intros a offset; simpl.
  - split; [auto|discriminate].
  - pose proof (handleTelegramUpdate_commit o a u now (answersFor u) true) as Hc.
    destruct (handleTelegramUpdate o a u now (answersFor u) true) as [[a1 tr1] st1].
    destruct Hc as [[-> Hn] | [-> [pre [Hn ->]]]].
    + split; [discriminate|]. intros _. exists 0%nat. split; [lia|].
      simpl. split; [apply commitsOf_no_commit, Hn|reflexivity].
    + specialize (IH a1 (UpdateID u + 1)).
      destruct (runTelegramOnlyBatch o a1 (UpdateID u + 1) now answersFor rest)
        as [[[a2 tr2] off2] st2].
      destruct IH as [IHf IHr].
      assert (Hpre : commitsOf (pre ++ commit true u ++ tr2) = (UpdateID u + 1) :: commitsOf tr2).
      { unfold commitsOf. rewrite !omap_app. fold (commitsOf pre).
        rewrite (commitsOf_no_commit _ Hn). reflexivity. }
      rewrite <- app_assoc, Hpre. split.
      * intros Hs. destruct (IHf Hs) as [-> ->]. split; [reflexivity|].
        symmetry. apply (last_cons_shift (UpdateID u + 1)).
      * intros Hs. destruct (IHr Hs) as (k & Hk & -> & ->). exists (S k). split; [lia|].
        simpl. split; [reflexivity|].
        symmetry. apply (last_cons_shift (UpdateID u + 1)).
Qed.

Lemma lookupUser_some users name chat n :
  lookupUser users name = Some (chat, n) -> In (chat, n) users /\ ToLower n = ToLower name.
Proof.
  unfold lookupUser. intros H. apply List.find_some in H as [Hin Heq].
  split; [exact Hin|]. apply String.eqb_eq in Heq. exact Heq.
Qed.

Lemma scheduleReminder_cases parseTime formatReply users tctx args now rs nextID insertErr :
  let '((_, err), rs') :=
    scheduleReminder parseTime formatReply users tctx args now rs nextID insertErr in
  (err <> None /\ rs' = rs) \/
  (err = None /\ insertErr = None /\
   exists a t chat, args = inr a /\ ra_Message a <> "" /\
     parseTime (ra_FireAt a) = inr t /\ now <= t /\
     ((In (ra_To a) [""; "me"; "io"] /\ chat = tctx_ChatID tctx) \/
      (~ In (ra_To a) [""; "me"; "io"] /\
       exists name, In (chat, name) users /\ ToLower name = ToLower (ra_To a))) /\
     rs' = rs ++ [mkReminderRow nextID t chat (ra_Message a) None]).
Proof.
  unfold scheduleReminder.
  destruct args as [e|a]; [left; split; [discriminate|reflexivity]|].
  destruct (String.eqb (ra_FireAt a) "" || String.eqb (ra_Message a) "") eqn:Hreq;
    [left; split; [discriminate|reflexivity]|].
  apply orb_false_iff in Hreq as [_ Hm]. apply String.eqb_neq in Hm.
  destruct (parseTime (ra_FireAt a)) as [e|t] eqn:Hp; [left; split; [discriminate|reflexivity]|].
  destruct (Z.ltb t now) eqn:Hlt; [left; split; [discriminate|reflexivity]|].
  apply Z.ltb_ge in Hlt.
  destruct (negb (String.eqb (ra_To a) "") && negb (String.eqb (ra_To a) "me")
            && negb (String.eqb (ra_To a) "io")) eqn:Hto.
  - destruct (lookupUser users (ra_To a)) as [[chat n]|] eqn:Hl;
      [|left; split; [discriminate|reflexivity]].
    destruct insertErr as [e|]; [left; split; [discriminate|reflexivity]|].
    right. split; [reflexivity|]. split; [reflexivity|].
    exists a, t, chat. repeat (split; [assumption || reflexivity|]).
    split; [|reflexivity]. right. split.
    + apply andb_true_iff in Hto as [Hto H3]. apply andb_true_iff in Hto as [H1 H2].
      apply negb_true_iff, String.eqb_neq in H1, H2, H3.
      intros [E|[E|[E|[]]]]; auto.
    + exists n. exact (lookupUser_some _ _ _ _ Hl).
  - destruct insertErr as [e|]; [left; split; [discriminate|reflexivity]|].
    right. split; [reflexivity|]. split; [reflexivity|].
    exists a, t, (tctx_ChatID tctx). repeat (split; [assumption || reflexivity|]).
    split; [|reflexivity]. left. split; [|reflexivity].
    destruct (String.eqb_spec (ra_To a) "") as [E|E]; [left; auto|].
    destruct (String.eqb_spec (ra_To a) "me") as [E'|E']; [right; left; auto|].
    destruct (String.eqb_spec (ra_To a) "io") as [E''|E'']; [right; right; left; auto|].
    discriminate Hto.
Qed.

(** [schedule_reminder] changes the [reminders] table only when it
    succeeds, and then adds exactly one unfired row: its [fire_at] is the
    parsed [fire_at], not before the current time; its chat is the
    caller's chat for the destinations "", "me" and "io", and otherwise
    the chat of a user whose name matches [to] without regard to case.
    Every error (bad JSON, missing field, bad or past [fire_at], unknown
    user, failed INSERT) leaves the table as it was. *)
Theorem scheduleReminder_spec parseTime formatReply users tctx args now rs nextID insertErr :
  let '((_, err), rs') :=
    scheduleReminder parseTime formatReply users tctx args now rs nextID insertErr in
  (err <> None /\ rs' = rs) \/
  (err = None /\ insertErr = None /\
   exists a t chat, args = inr a /\ ra_Message a <> "" /\
     parseTime (ra_FireAt a) = inr t /\ now <= t /\
     ((In (ra_To a) [""; "me"; "io"] /\ chat = tctx_ChatID tctx) \/
      (~ In (ra_To a) [""; "me"; "io"] /\
       exists name, In (chat, name) users /\ ToLower name = ToLower (ra_To a))) /\
     rs' = rs ++ [mkReminderRow nextID t chat (ra_Message a) None]).
Proof. exact (scheduleReminder_cases parseTime formatReply users tctx args now rs nextID insertErr). Qed.

Lemma In_sendDue_send rs due j sendOk upd r :
  In r due -> In (EffSend (rem_chat_id r) (rem_message r)) (sendDue rs due j sendOk upd).2.
Proof.
  intros Hin. pose proof (sendDue_spec rs due j sendOk upd) as H.
  destruct (sendDue rs due j sendOk upd) as [rs' tr]. destruct H as [_ H]. simpl.
  assert (Hx : (rem_chat_id r, rem_message r) ∈
               omap (fun e => match e with EffSend c m => Some (c, m) | _ => None end) tr).
  { rewrite H. apply list_elem_of_In, in_map_iff. eauto. }
  apply list_elem_of_omap in Hx as [e [He Hf]].
  destruct e; try discriminate. injection Hf as -> ->. apply list_elem_of_In, He.
Qed.

(** A reminder that [schedule_reminder] accepts is sent by the Telegram
    reminder loop: at every tick whose time is at or after its [fire_at]
    and whose query succeeds, while the row is still unfired, the loop
    sends the reminder's message to its chat. *)
Theorem scheduleReminder_then_sent parseTime formatReply users tctx args now rs nextID
    out rs' :
  scheduleReminder parseTime formatReply users tctx args now rs nextID None = ((out, None), rs') ->
  exists r, rs' = rs ++ [r] /\ rem_id r = nextID /\ now <= fire_at r /\ rem_fired_at r = None /\
    forall now' ctxAlive sendOk upd, fire_at r <= now' ->
      In (EffSend (rem_chat_id r) (rem_message r))
         (fireRemindersTG rs' now' true ctxAlive sendOk upd).2.
Proof.
  intros Hs. pose proof (scheduleReminder_cases parseTime formatReply users tctx args now rs nextID None) as H.
  rewrite Hs in H. destruct H as [[H _] | (_ & _ & a & t & chat & _ & _ & _ & Hle & _ & ->)];
    [congruence|].
  eexists. split; [reflexivity|]. cbn [rem_id fire_at rem_fired_at].
  split; [reflexivity|]. split; [exact Hle|]. split; [reflexivity|].
  intros now' ctxAlive sendOk upd Hnow. unfold fireRemindersTG.
  apply In_sendDue_send, selectDue_spec. cbn [fire_at rem_fired_at].
  split; [apply in_or_app; right; left; reflexivity|]. split; [exact Hnow|reflexivity].
Qed.

Lemma scheduleReminder_then_sent_witness :
  exists r, [mkReminderRow 7 100 11 "check out" None] = [] ++ [r] /\ rem_id r = 7 /\
    50 <= fire_at r /\ rem_fired_at r = None /\
    forall now' ctxAlive sendOk upd, fire_at r <= now' ->
      In (EffSend (rem_chat_id r) (rem_message r))
         (fireRemindersTG [mkReminderRow 7 100 11 "check out" None] now' true ctxAlive sendOk upd).2.
Proof.
  apply (scheduleReminder_then_sent (fun _ => inr 100) (fun _ d => d) [] (mkToolContext 22 11 0 "")
           (inr (mkReminderArgs "2026-02-24T10:30:00+01:00" "check out" "me" None)) 50 [] 7 "te").
  reflexivity.
Defined.

Lemma htmlEscape_cons c s :
  htmlEscape (String c s) = String.append (escByte c) (htmlEscape s).
Proof. destruct c as [[] [] [] [] [] [] [] []]; reflexivity. Qed.

Lemma htmlUnescape_escByte c t :
  htmlUnescape (String.append (escByte c) t) = String c (htmlUnescape t).
Proof. destruct c as [[] [] [] [] [] [] [] []]; reflexivity. Qed.

Lemma escByte_safe c :
  forall d, In d (String.list_ascii_of_string (escByte c)) -> d <> "<"%char /\ d <> ">"%char.
Proof.
  destruct c as [[] [] [] [] [] [] [] []]; cbn; intros d H;
    repeat (destruct H as [<-|H]; [split; discriminate|]); destruct H.
Qed.

Lemma list_ascii_of_string_append s t :
  String.list_ascii_of_string (String.append s t) =
  String.list_ascii_of_string s ++ String.list_ascii_of_string t.
Proof.
  induction s as [|c s IH]; [reflexivity|].
  change (String.append (String c s) t) with (String c (String.append s t)).
  cbn [String.list_ascii_of_string]. by rewrite IH.
Qed.

(** [htmlEscape] leaves no raw [<] or [>] in its output, and loses nothing:
    reading the entities back gives the input. *)
Theorem htmlEscape_safe_lossless s :
  (forall d, In d (String.list_ascii_of_string (htmlEscape s)) -> d <> "<"%char /\ d <> ">"%char) /\
  htmlUnescape (htmlEscape s) = s.
Proof.
  induction s as [|c s [IH1 IH2]]; [split; [intros d []|reflexivity]|].
  rewrite htmlEscape_cons. split.
  - intros d. rewrite list_ascii_of_string_append, in_app_iff.
    intros [H|H]; [exact (escByte_safe c d H)|exact (IH1 d H)].
  - by rewrite htmlUnescape_escByte, IH2.
Qed.











